(** * django-migration-updater: the [migration_updater] management command

    A shallow embedding of [Command.handle]
    (migration_updater/management/commands/migration_updater.py) and the
    properties of its graph construction, its GraphViz rendering, and its
    two file operations (rewriting of squashed dependencies, removal of
    squashed migrations).

    Modelling choices, following the Python code:
    - the source binds [app_names] to the empty tuple (line 30), so that the
      command as it stands reads no migration at all; [app_names] is a
      parameter here, and what the listing of the migration directories
      and [import_string] return is the input [Listing];
    - a migration key [(app_name, migration_name)] is a pair of strings;
    - [migrations], [migration_paths] and [replaced_nodes] are dicts whose
      [items()] are iterated in insertion order: association lists with
      Python's update-in-place semantics ([od_set]);
    - [all_nodes] and the values of [edges] are sets that are only tested
      for membership or iterated through [sorted]: [gset];
      [edges] itself is only looked up or iterated through [sorted]: [gmap];
    - the [while] loop that follows [replaced_nodes] has no bound in the
      source; it is modelled with fuel, [None] meaning that the loop is
      still running when the fuel is exhausted;
    - [self.stdout.write] appends to a list of notices;
    - the files on disk are only read, written and removed by path: a
      [gmap] from path to bytes; the migration files are regular files
      that the command may open, and what text mode makes of their bytes
      is a parameter, as are the creation of the graph file and the
      program [dot];
    - [re.sub] is modelled on the part of the pattern language that the
      pattern of line 164 uses, and is a parameter beyond it. *)

From stdpp Require Import gmap strings list sorting.
From Stdlib Require Import Ascii.

#[local] Set Warnings "-clear-no-such-hyp".

(** ** Python data *)

(** [Tuple[str, str]]: the key of a migration. *)
Definition RecordId : Type := string * string.

(** An element of [Migration.dependencies] or [Migration.replaces]:
    the code tests [isinstance(x, tuple)] before using it. *)
Inductive entry : Type :=
  | Tup (t : RecordId)
  | NotTuple (repr : string).

Global Instance entry_eq_dec : EqDecision entry.
Proof. solve_decision. Defined.

Definition is_tuple (e : entry) : bool :=
  match e with Tup _ => true | NotTuple _ => false end.

(** The two attributes of [django.db.migrations.Migration] that are read. *)
Record Migration : Type := {
  dependencies : list entry;
  replaces : list entry
}.

Global Instance Migration_eq_dec : EqDecision Migration.
Proof. solve_decision. Defined.

(** One migration module found in [migration_dir]: a file that passes the
    filter of the listing loop (a [.py] regular file other than
    [__init__.py]), with the class that [import_string] returns for it. *)
Record MigrationFile : Type := {
  migration_name : string;
  migration : Migration;
  migration_abspath : string
}.

(** [os.listdir] on the migrations directory of every application;
    the empty list when the directory does not exist. *)
Definition Listing : Type := string → list MigrationFile.

(** ** Insertion-ordered dicts *)

Section odict.
Context {K V : Type} `{EqDecision K}.

(** [d.get(k)] *)
Fixpoint od_get (d : list (K * V)) (k : K) : option V :=
  match d with
  | [] => None
  | (k', v) :: d' => if decide (k = k') then Some v else od_get d' k
  end.

(** [k in d] *)
Definition od_mem (d : list (K * V)) (k : K) : bool :=
  match od_get d k with Some _ => true | None => false end.

(** [d[k] = v]: an existing key keeps its position. *)
Fixpoint od_set (k : K) (v : V) (d : list (K * V)) : list (K * V) :=
  match d with
  | [] => [(k, v)]
  | (k', v') :: d' =>
      if decide (k = k') then (k', v) :: d' else (k', v') :: od_set k v d'
  end.
End odict.


(** ** Reading the migrations (lines 36-71) *)

Record Loaded : Type := {
  migrations : list (RecordId * Migration);
  migration_paths : list (RecordId * string);
  squashing_migrations : gset RecordId;
  replaced_nodes : list (RecordId * RecordId)
}.

Definition no_migrations : Loaded :=
  {| migrations := []; migration_paths := [];
     squashing_migrations := ∅; replaced_nodes := [] |}.

(** [for replaced in migration.replaces: ...] *)
Definition read_replaced (app_names : list string) (self : RecordId)
    (replaced_nodes : list (RecordId * RecordId)) (replaced : entry) :
    list (RecordId * RecordId) :=
  match replaced with
  | NotTuple _ => replaced_nodes
  | Tup r =>
      if bool_decide (r.1 ∈ app_names) then od_set r self replaced_nodes
      else replaced_nodes
  end.

(** The body of the loop over the files of one application. *)
Definition read_file (app_names : list string) (app_name : string)
    (st : Loaded) (f : MigrationFile) : Loaded :=
  let key := (app_name, migration_name f) in
  {| migrations := od_set key (migration f) (migrations st);
     migration_paths := od_set key (migration_abspath f) (migration_paths st);
     squashing_migrations :=
       match replaces (migration f) with
       | [] => squashing_migrations st
       | _ :: _ => {[key]} ∪ squashing_migrations st
       end;
     replaced_nodes :=
       foldl (read_replaced app_names key) (replaced_nodes st)
             (replaces (migration f)) |}.

Definition read_app (app_names : list string) (listing : Listing)
    (st : Loaded) (app_name : string) : Loaded :=
  foldl (read_file app_names app_name) st (listing app_name).

(** [for app_name in app_names: ...] *)
Definition read_migrations (app_names : list string) (listing : Listing) :
    Loaded :=
  foldl (read_app app_names listing) no_migrations app_names.

(** ** Building the graph (lines 73-103) *)

Inductive Style : Type := SUCCESS | ERROR.

Global Instance Style_eq_dec : EqDecision Style.
Proof. solve_decision. Defined.

(** One call of [self.stdout.write(style(text))]. *)
Record Notice : Type := { notice_style : Style; notice_text : string }.

Global Instance Notice_eq_dec : EqDecision Notice.
Proof. solve_decision. Defined.

(** The double quote character. *)
Definition dq : string := String (ascii_of_nat 34) EmptyString.

(** ['("%s", "%s")' % migration_tuple] *)
Definition name (t : RecordId) : string :=
  "(" +:+ dq +:+ t.1 +:+ dq +:+ ", " +:+ dq +:+ t.2 +:+ dq +:+ ")".

(** ["%s_%s" % migration_tuple] *)
Definition key (t : RecordId) : string := t.1 +:+ "_" +:+ t.2.

(** [while src in replaced_nodes and hide_squashed_nodes:
       src = replaced_nodes[src]]
    One unit of fuel is spent on each evaluation of the loop condition. *)
Fixpoint follow (fuel : nat) (replaced_nodes : list (RecordId * RecordId))
    (hide_squashed_nodes : bool) (src : RecordId) : option RecordId :=
  match fuel with
  | O => None
  | S fuel' =>
      match od_get replaced_nodes src, hide_squashed_nodes with
      | Some next, true => follow fuel' replaced_nodes hide_squashed_nodes next
      | _, _ => Some src
      end
  end.

Record Graph : Type := {
  edges : gmap RecordId (gset RecordId);
  all_nodes : gset RecordId;
  stdout : list Notice
}.

Definition empty_graph : Graph :=
  {| edges := ∅; all_nodes := ∅; stdout := [] |}.

(** [edges[src].add(dst)] on a [defaultdict(lambda: set())] *)
Definition edges_add (src dst : RecordId)
    (edges : gmap RecordId (gset RecordId)) : gmap RecordId (gset RecordId) :=
  <[src := {[dst]} ∪ default ∅ (edges !! src)]> edges.

(** The text of the notice of lines 94-99. *)
Definition replaced_message (original_src src dst : RecordId)
    (squashed : bool) : string :=
  "migration " +:+ name original_src +:+ " replaced by " +:+ name src
    +:+ " in the dependencies of the "
    +:+ (if squashed then "squashed " else EmptyString) +:+ "migration " +:+ name dst.

Definition replaced_notice (replaced_nodes : list (RecordId * RecordId))
    (original_src src dst : RecordId) : Notice :=
  if od_mem replaced_nodes dst
  then {| notice_style := ERROR;
          notice_text := replaced_message original_src src dst true |}
  else {| notice_style := SUCCESS;
          notice_text := replaced_message original_src src dst false |}.

(** The body of [for src in migration.dependencies] (lines 82-102). *)
Definition add_dependency (fuel : nat) (app_names : list string)
    (hide_squashed_nodes : bool) (replaced_nodes : list (RecordId * RecordId))
    (dst : RecordId) (g : Graph) (dep : entry) : option Graph :=
  match dep with
  | NotTuple _ => Some g
  | Tup original_src =>
      src ← follow fuel replaced_nodes hide_squashed_nodes original_src;
      let out :=
        if decide (src ≠ original_src)
        then stdout g ++ [replaced_notice replaced_nodes original_src src dst]
        else stdout g in
      if bool_decide (src.1 ∈ app_names)
      then Some {| edges := edges_add src dst (edges g);
                   all_nodes := {[src]} ∪ all_nodes g;
                   stdout := out |}
      else Some {| edges := edges g; all_nodes := all_nodes g; stdout := out |}
  end.

(** A [for] loop whose body may fail to return. *)
Fixpoint for_each {A S : Type} (body : S → A → option S) (s : S)
    (l : list A) : option S :=
  match l with
  | [] => Some s
  | x :: l' => s' ← body s x; for_each body s' l'
  end.

(** The body of [for dst, migration in migrations.items()] (lines 78-103). *)
Definition add_migration (fuel : nat) (app_names : list string)
    (hide_squashed_nodes : bool) (replaced_nodes : list (RecordId * RecordId))
    (g : Graph) (item : RecordId * Migration) : option Graph :=
  let '(dst, migration) := item in
  if bool_decide (dst.1 ∈ app_names) then
    g' ← for_each
           (add_dependency fuel app_names hide_squashed_nodes replaced_nodes dst)
           g (dependencies migration);
    Some {| edges := edges g'; all_nodes := {[dst]} ∪ all_nodes g';
            stdout := stdout g' |}
  else Some g.

Definition build_graph (fuel : nat) (app_names : list string)
    (hide_squashed_nodes : bool) (st : Loaded) : option Graph :=
  for_each (add_migration fuel app_names hide_squashed_nodes (replaced_nodes st))
           empty_graph (migrations st).

(** ** Writing the GraphViz file (lines 105-141) *)

(** [sorted] on migration tuples: Python compares tuples component by
    component and strings by code point. *)
Definition tuple_leb (a b : RecordId) : bool :=
  String.ltb a.1 b.1 || (bool_decide (a.1 = b.1) && String.leb a.2 b.2).

Definition tuple_le (a b : RecordId) : Prop := Is_true (tuple_leb a b).

Global Instance tuple_le_dec : RelDecision tuple_le.
Proof. intros a b. unfold tuple_le. apply _. Defined.

Definition sorted (l : list RecordId) : list RecordId :=
  merge_sort tuple_le l.

(** [sorted(edges.items())]: the keys of a dict are distinct, so the
    comparison of two items is decided by their keys. *)
Definition item_le (a b : RecordId * gset RecordId) : Prop :=
  tuple_le a.1 b.1.

Global Instance item_le_dec : RelDecision item_le.
Proof. intros a b. unfold item_le. apply _. Defined.

Definition sorted_items (edges : gmap RecordId (gset RecordId)) :
    list (RecordId * gset RecordId) :=
  merge_sort item_le (map_to_list edges).

(** A line written to [buffer] between the header and the footer. *)
Inductive line : Type :=
  | Node (src : RecordId) (fillcolor label : string)
  | Edge (src dst : RecordId).

Global Instance line_eq_dec : EqDecision line.
Proof. solve_decision. Defined.

Definition nl : string := String (ascii_of_nat 10) EmptyString.

Definition line_text (l : line) : string :=
  match l with
  | Node src fillcolor label =>
      "    " +:+ key src +:+ " [fillcolor=" +:+ dq +:+ fillcolor +:+ dq
        +:+ ", style=" +:+ dq +:+ "filled" +:+ dq
        +:+ ", label=" +:+ dq +:+ label +:+ dq +:+ "];" +:+ nl
  | Edge src dst => "    " +:+ key src +:+ " -> " +:+ key dst +:+ ";" +:+ nl
  end.

(** [x in replaced_nodes and hide_squashed_nodes] *)
Definition hidden (replaced_nodes : list (RecordId * RecordId))
    (hide_squashed_nodes : bool) (x : RecordId) : bool :=
  od_mem replaced_nodes x && hide_squashed_nodes.

(** [any(dst[0] != src[0] for dst in dst_set if dst not in replaced_nodes)] *)
Definition other_app (replaced_nodes : list (RecordId * RecordId))
    (src : RecordId) (dst_set : gset RecordId) : bool :=
  bool_decide (set_Exists
    (λ dst, od_mem replaced_nodes dst = false ∧ dst.1 ≠ src.1) dst_set).

Definition blue : string := "#79aec8".
Definition red : string := "#d9534f".
Definition grey : string := "#eeeeee".

(** Lines 115-124: the colour of a node. *)
Definition node_color (replaced_nodes : list (RecordId * RecordId))
    (edges : gmap RecordId (gset RecordId)) (src : RecordId) : string :=
  let dst_set := default ∅ (edges !! src) in
  let color := if other_app replaced_nodes src dst_set then red else blue in
  if od_mem replaced_nodes src then grey else color.

(** Lines 119-123: the label of a node. *)
Definition node_label (st : Loaded) (src : RecordId) : string :=
  let label := src.1 +:+ ":" +:+ src.2 in
  let label :=
    if bool_decide (src ∈ squashing_migrations st)
    then label +:+ " (squash)" else label in
  if od_mem (replaced_nodes st) src then label +:+ " (squashed)" else label.

(** [for src in sorted(all_nodes): ...] *)
Definition node_lines (hide_squashed_nodes : bool) (st : Loaded) (g : Graph) :
    list line :=
  (λ src, Node src (node_color (replaced_nodes st) (edges g) src)
                   (node_label st src))
  <$> filter (λ src, hidden (replaced_nodes st) hide_squashed_nodes src = false)
             (sorted (elements (all_nodes g))).

(** [if not hide_squashed_nodes:
       for src, dst in replaced_nodes.items(): ...] *)
Definition replaced_lines (hide_squashed_nodes : bool) (st : Loaded) :
    list line :=
  if hide_squashed_nodes then []
  else (λ item : RecordId * RecordId, Edge item.1 item.2) <$> replaced_nodes st.

(** [for src, dst_set in sorted(edges.items()): ...] *)
Definition edge_lines (hide_squashed_nodes : bool) (st : Loaded) (g : Graph) :
    list line :=
  item ← sorted_items (edges g);
  if hidden (replaced_nodes st) hide_squashed_nodes item.1 then []
  else
    dst ← sorted (elements item.2);
    if hidden (replaced_nodes st) hide_squashed_nodes dst then []
    else [Edge item.1 dst].

Definition graph_lines (hide_squashed_nodes : bool) (st : Loaded) (g : Graph) :
    list line :=
  node_lines hide_squashed_nodes st g ++ replaced_lines hide_squashed_nodes st
    ++ edge_lines hide_squashed_nodes st g.

(** [buffer.getvalue()] *)
Definition graph_text (hide_squashed_nodes : bool) (st : Loaded) (g : Graph) :
    string :=
  "digraph migrations {" +:+ nl
    +:+ foldr (λ l acc, line_text l +:+ acc) ("}" +:+ nl)
              (graph_lines hide_squashed_nodes st g).

(** The migration tuples that a line mentions. *)
Definition line_ids (l : line) : list RecordId :=
  match l with
  | Node src _ _ => [src]
  | Edge src dst => [src; dst]
  end.

Definition is_node_of (x : RecordId) (l : line) : bool :=
  match l with
  | Node src _ _ => bool_decide (src = x)
  | Edge _ _ => false
  end.

(** [x] has a node line among [ls]. *)
Definition has_node (ls : list line) (x : RecordId) : bool :=
  existsb (is_node_of x) ls.

(** Every end of every edge line of [ls] has a node line in [ls]. *)
Definition no_dangling (ls : list line) : bool :=
  forallb (λ l, match l with
                | Node _ _ _ => true
                | Edge src dst => has_node ls src && has_node ls dst
                end) ls.

(** ** The files (lines 143-176)

    A file holds bytes.  The command reads and writes the migration files
    in text mode: [decode] is what [fd.read()] makes of the bytes of a
    file (the locale's encoding, the line ends translated), [None] when it
    raises [UnicodeDecodeError]; [encode] gives the bytes that
    [fd.write(text)] stores, [None] when it raises [UnicodeEncodeError].
    Both belong to the platform and are parameters. *)

Inductive exn : Type :=
  | re_error
  | FileNotFoundError (path : string)
  | KeyError (k : RecordId)
  | AttributeError
  | OverflowError
  | UnicodeDecodeError
  | UnicodeEncodeError
  | OtherError (class_name : string).

(** The files on disk and what has been written to [self.stdout]. *)
Record World : Type := {
  files : gmap string string;
  output : list Notice
}.

Definition success (text : string) : Notice :=
  {| notice_style := SUCCESS; notice_text := text |}.

(** A loop over the items of a dict that stops at the first exception;
    the world is then the one left by the iterations that completed. *)
Fixpoint for_items {K V : Type} (body : K → V → World → World + exn)
    (items : list (K * V)) (w : World) : World * option exn :=
  match items with
  | [] => (w, None)
  | (k, v) :: rest =>
      match body k v w with
      | inl w' => for_items body rest w'
      | inr e => (w, Some e)
      end
  end.

(** The same loop for a body that may have touched a file when it
    raises. *)
Fixpoint for_items_raising {K V : Type}
    (body : K → V → World → World * option exn)
    (items : list (K * V)) (w : World) : World * option exn :=
  match items with
  | [] => (w, None)
  | (k, v) :: rest =>
      match body k v w with
      | (w', None) => for_items_raising body rest w'
      | (w', Some e) => (w', Some e)
      end
  end.

(** The pattern given to [re.sub] on line 164; the backslash is an
    ordinary character of a Rocq string, as it is of a Python raw string. *)
Definition quote_class : string := "['\" +:+ dq +:+ "]".

Definition pattern (src : RecordId) : string :=
  "\(\s*" +:+ quote_class +:+ src.1 +:+ quote_class +:+ "\s*,\s*"
    +:+ quote_class +:+ src.2 +:+ quote_class +:+ "\s*)".

Section replace_squashed.
(** [re.sub(pattern, repl, string)]: the new text, or the exception that
    it raises. *)
Variable re_sub : string → string → string → string + exn.
Variable decode : string → option string.
Variable encode : string → option string.

(** The body of [for src in migration.dependencies] (lines 160-167). *)
Definition substitute (replaced_nodes : list (RecordId * RecordId))
    (migration_content : string) (dep : entry) : string + exn :=
  match dep with
  | NotTuple _ => inl migration_content
  | Tup src =>
      match od_get replaced_nodes src with
      | None => inl migration_content
      | Some dst => re_sub (pattern src) (name dst) migration_content
      end
  end.

(** [for src in migration.dependencies: ...] (lines 159-167) *)
Fixpoint substitutions (replaced_nodes : list (RecordId * RecordId))
    (migration_content : string) (deps : list entry) : string + exn :=
  match deps with
  | [] => inl migration_content
  | dep :: deps' =>
      match substitute replaced_nodes migration_content dep with
      | inl migration_content' =>
          substitutions replaced_nodes migration_content' deps'
      | inr e => inr e
      end
  end.

(** The body of [for migration_key, migration_path in
    migration_paths.items()] (lines 156-170).  [open(migration_path, "w")]
    empties the file before anything is written to it: so it stays when
    the text cannot be encoded. *)
Definition replace_in_file (st : Loaded) (migration_key : RecordId)
    (migration_path : string) (w : World) : World * option exn :=
  match od_get (migrations st) migration_key with
  | None => (w, Some (KeyError migration_key))
  | Some migration =>
      match files w !! migration_path with
      | None => (w, Some (FileNotFoundError migration_path))
      | Some bytes =>
          match decode bytes with
          | None => (w, Some UnicodeDecodeError)
          | Some migration_content =>
              match substitutions (replaced_nodes st) migration_content
                                  (dependencies migration) with
              | inr e => (w, Some e)
              | inl migration_content' =>
                  match encode migration_content' with
                  | None =>
                      ({| files :=
                            <[migration_path := EmptyString]> (files w);
                          output := output w |},
                       Some UnicodeEncodeError)
                  | Some bytes' =>
                      ({| files := <[migration_path := bytes']> (files w);
                          output :=
                            output w ++
                              [success (migration_path +:+ " updated")] |},
                       None)
                  end
              end
          end
      end
  end.

(** [if replace_squashed_nodes: ...] *)
Definition replace_squashed_dependencies (st : Loaded) (w : World) :
    World * option exn :=
  for_items_raising (replace_in_file st) (migration_paths st) w.
End replace_squashed.

(** The body of the loop of lines 173-176; [os.remove] raises when the
    file does not exist. *)
Definition remove_file (st : Loaded) (migration_key : RecordId)
    (migration_path : string) (w : World) : World + exn :=
  if od_mem (replaced_nodes st) migration_key then
    match files w !! migration_path with
    | None => inr (FileNotFoundError migration_path)
    | Some _ =>
        inl {| files := delete migration_path (files w);
               output := output w ++ [success (migration_path +:+ " deleted")] |}
    end
  else inl w.

(** [if remove_squashed_nodes: ...] *)
Definition remove_squashed_dependencies (st : Loaded) (w : World) :
    World * option exn :=
  for_items (remove_file st) (migration_paths st) w.

(** ** Python's [re] on the pattern of line 164

    [re.sub] compiles the pattern, then replaces every match.  Only the
    part of the pattern language that the pattern of line 164 uses is
    modelled: ordinary characters, the escapes [\(] and [\s], a set of
    ordinary characters (the double quote after a backslash), a star after
    one of these, and groups without a quantifier.  [parse] reads a
    pattern from left to right as the parser of [re] does:
    - a closing parenthesis that closes no group, or the end of the
      pattern inside a group, makes [re] raise [re.error];
    - on any other construct the answer is [Unknown]: what [re] then
      does is not modelled and is left to a parameter. *)

Definition is_char (c : ascii) (n : nat) : bool :=
  bool_decide (nat_of_ascii c = n).

(** The characters with a meaning of their own in a pattern:
    [. ^ $ * + ? { } [ ] \ | ( )] *)
Definition special_char (c : ascii) : bool :=
  bool_decide (nat_of_ascii c ∈
    [46; 94; 36; 42; 43; 63; 123; 125; 91; 93; 92; 124; 40; 41]).

(** What matches one character: the character itself, [\s], a set. *)
Inductive atom : Type :=
  | Lit (c : ascii)
  | Space
  | OneOf (cs : list ascii).

(** An atom, and whether a star follows it.  A group without a
    quantifier matches what its content matches: the items of a compiled
    pattern are those of its groups, in order. *)
Definition item : Type := atom * bool.

Inductive parsed : Type :=
  | Compiled (items : list item)
  | Raises (e : exn)
  | Unknown.

(** Where the parser is: in the pattern (after something that a star may
    follow, or not), after a backslash, in a set, after a backslash in a
    set. *)
Inductive lexmode : Type :=
  | Plain (starrable : bool)
  | Escaped
  | InSet (cs : list ascii)
  | SetEscaped (cs : list ascii).

(** [depth] counts the groups that are open, [acc] holds the items read
    so far, the last one first. *)
Fixpoint parse (m : lexmode) (depth : nat) (acc : list item) (p : string) :
    parsed :=
  match p with
  | EmptyString =>
      match m, depth with
      | Plain _, O => Compiled (reverse acc)
      | Plain _, S _ => Raises re_error
      | _, _ => Unknown
      end
  | String c p' =>
      match m with
      | Plain starrable =>
          if is_char c 92 then parse Escaped depth acc p'
          else if is_char c 91 then parse (InSet []) depth acc p'
          else if is_char c 40 then parse (Plain false) (S depth) acc p'
          else if is_char c 41 then
            match depth with
            | O => Raises re_error
            | S depth' => parse (Plain false) depth' acc p'
            end
          else if is_char c 42 then
            match starrable, acc with
            | true, (a, _) :: acc' =>
                parse (Plain false) depth ((a, true) :: acc') p'
            | _, _ => Unknown
            end
          else if special_char c then Unknown
          else parse (Plain true) depth ((Lit c, false) :: acc) p'
      | Escaped =>
          if is_char c 40 then
            parse (Plain true) depth ((Lit c, false) :: acc) p'
          else if is_char c 115 then
            parse (Plain true) depth ((Space, false) :: acc) p'
          else Unknown
      | InSet cs =>
          if is_char c 93 then
            match cs with
            | [] => Unknown
            | _ :: _ =>
                parse (Plain true) depth ((OneOf (reverse cs), false) :: acc) p'
            end
          else if is_char c 92 then parse (SetEscaped cs) depth acc p'
          else if special_char c || is_char c 45 || is_char c 38
                  || is_char c 126 then Unknown
          else parse (InSet (c :: cs)) depth acc p'
      | SetEscaped cs =>
          if is_char c 34 then parse (InSet (c :: cs)) depth acc p'
          else Unknown
      end
  end.

(** [\s] on the ASCII characters: the tab, the line feed, the vertical
    tab, the form feed, the carriage return, the four separators 28 to 31
    and the space. *)
Definition is_space (c : ascii) : bool :=
  bool_decide (nat_of_ascii c ∈ [9; 10; 11; 12; 13; 28; 29; 30; 31; 32]).

Definition atom_matches (a : atom) (c : ascii) : bool :=
  match a with
  | Lit c' => bool_decide (c = c')
  | Space => is_space c
  | OneOf cs => bool_decide (c ∈ cs)
  end.

(** [a*] followed by the rest of the pattern, [k]: the engine takes the
    longest run of [a] first and gives characters back one at a time. *)
Fixpoint star (a : atom) (k : string → option string) (s : string) :
    option string :=
  match s with
  | EmptyString => k s
  | String c s' =>
      if atom_matches a c then
        match star a k s' with
        | Some rest => Some rest
        | None => k s
        end
      else k s
  end.

(** The match of [items] at the start of [s] that the engine finds, if
    there is one: what remains of [s] after it. *)
Fixpoint match_items (items : list item) (s : string) : option string :=
  match items with
  | [] => Some s
  | (a, true) :: items' => star a (match_items items') s
  | (a, false) :: items' =>
      match s with
      | EmptyString => None
      | String c s' => if atom_matches a c then match_items items' s' else None
      end
  end.

(** Every match replaced by [repl], from left to right, for a pattern
    that matches no empty text; [skip] counts the characters of the
    current match that remain to be passed over. *)
Fixpoint sub_from (items : list item) (repl : string) (skip : nat)
    (s : string) : string :=
  match s with
  | EmptyString => EmptyString
  | String c s' =>
      match skip with
      | S skip' => sub_from items repl skip' s'
      | O =>
          match match_items items s with
          | Some rest =>
              repl +:+ sub_from items repl
                         (String.length s' - String.length rest) s'
          | None => String c (sub_from items repl 0 s')
          end
      end
  end.

Fixpoint ascii_only (s : string) : bool :=
  match s with
  | EmptyString => true
  | String c s' => (nat_of_ascii c <? 128) && ascii_only s'
  end.

Fixpoint has_backslash (s : string) : bool :=
  match s with
  | EmptyString => false
  | String c s' => is_char c 92 || has_backslash s'
  end.

(** [re.sub(pattern, repl, s)].  The modelled part: a pattern that [parse]
    reads to its end and that has an item without a star (so that it
    matches no empty text), a replacement without backslash (it is then
    taken as it is), ASCII characters only in the pattern and in the
    text.  Everything else is left to [sre]. *)
Definition py_re_sub (sre : string → string → string → string + exn)
    (pattern repl s : string) : string + exn :=
  match parse (Plain false) 0 [] pattern with
  | Raises e => inr e
  | Compiled items =>
      if negb (forallb snd items) && ascii_only pattern && ascii_only s
         && negb (has_backslash repl)
      then inl (sub_from items repl 0 s)
      else sre pattern repl s
  | Unknown => sre pattern repl s
  end.

(** A string without any of the special characters of a pattern. *)
Fixpoint plain (s : string) : bool :=
  match s with
  | EmptyString => true
  | String c s' => negb (special_char c) && plain s'
  end.

Definition plain_id (t : RecordId) : bool := plain t.1 && plain t.2.

(** ** Text mode with the ASCII encoding

    What [decode] and [encode] are on a POSIX system whose locale
    encoding is ASCII; on a file of ASCII characters the UTF-8 and the
    Latin-1 encodings give the same. *)

(** Universal newlines: a carriage return followed by a line feed, and a
    carriage return alone, are read as a line feed. *)
Fixpoint universal_newlines (s : string) : string :=
  match s with
  | EmptyString => EmptyString
  | String c s' =>
      if is_char c 13 then
        match s' with
        | String c' _ =>
            if is_char c' 10 then universal_newlines s'
            else String (ascii_of_nat 10) (universal_newlines s')
        | EmptyString => String (ascii_of_nat 10) EmptyString
        end
      else String c (universal_newlines s')
  end.

Definition ascii_decode (bytes : string) : option string :=
  if ascii_only bytes then Some (universal_newlines bytes) else None.

(** A line feed is written as it is. *)
Definition ascii_encode (text : string) : option string :=
  if ascii_only text then Some text else None.

(** ** The output file (lines 143-152) *)

Definition dot_char : ascii := ascii_of_nat 46.

(** The last occurrence of a dot in [s]: what is before it and what is
    after it. *)
Fixpoint rsplit_dot (s : string) : option (string * string) :=
  match s with
  | EmptyString => None
  | String c s' =>
      match rsplit_dot s' with
      | Some (base, ext) => Some (String c base, ext)
      | None =>
          if bool_decide (c = dot_char) then Some (EmptyString, s') else None
      end
  end.

(** [s.rpartition(".")] *)
Definition rpartition_dot (s : string) : string * string * string :=
  match rsplit_dot s with
  | Some (base, ext) => (base, ".", ext)
  | None => (EmptyString, EmptyString, s)
  end.

(** [str.lower] on the letters A to Z; the other characters are left as
    they are, which gives the same answer to the test of line 144 (no
    other character is lowered to one of the letters of png, svg or jpg). *)
Definition lower_char (c : ascii) : ascii :=
  if (65 <=? nat_of_ascii c) && (nat_of_ascii c <=? 90)
  then ascii_of_nat (nat_of_ascii c + 32) else c.

Fixpoint lower (s : string) : string :=
  match s with
  | EmptyString => EmptyString
  | String c s' => String (lower_char c) (lower s')
  end.

(** Lines 143-144: the format asked from [dot], if any. *)
Definition image_format (graphviz_filename : string) : option string :=
  let '(base, sep, ext) := rpartition_dot graphviz_filename in
  if bool_decide (sep = ".")
     && bool_decide (lower ext ∈ ["png"; "svg"; "jpg"])
  then Some (lower ext) else None.

(** No dot in a string. *)
Fixpoint dotless (s : string) : bool :=
  match s with
  | EmptyString => true
  | String c s' => negb (bool_decide (c = dot_char)) && dotless s'
  end.

(** ** The command *)

Record Options : Type := {
  include_squashed : bool;
  replace_squashed_dependencies_opt : bool;
  remove_squashed_dependencies_opt : bool;
  graphviz : option string
}.

Section handle.
Variable re_sub : string → string → string → string + exn.
Variable decode : string → option string.
Variable encode : string → option string.
(** [open(graphviz_filename, "w")] and [open(graphviz_filename, "wb")]:
    the exception raised when the file cannot be created (an empty name,
    a directory, a directory that does not exist, a refusal of the
    system), [None] when it is created or emptied. *)
Variable create : string → option exn.
(** [subprocess.Popen(["dot", "-T<format>"], ...)]: the exception raised
    when the program cannot be started, or what the program writes to its
    standard output for a format and a text given on its standard input. *)
Variable dot : (string → string → string) + exn.

(** Lines 143-152.  The file has been created, empty, when [dot] cannot
    be started or when the text cannot be encoded. *)
Definition write_graph (graphviz_filename text : string)
    (disk : gmap string string) : gmap string string * option exn :=
  match create graphviz_filename with
  | Some e => (disk, Some e)
  | None =>
      match image_format graphviz_filename with
      | Some format =>
          match dot with
          | inr e => (<[graphviz_filename := EmptyString]> disk, Some e)
          | inl run => (<[graphviz_filename := run format text]> disk, None)
          end
      | None =>
          match encode text with
          | None =>
              (<[graphviz_filename := EmptyString]> disk,
               Some UnicodeEncodeError)
          | Some bytes => (<[graphviz_filename := bytes]> disk, None)
          end
      end
  end.

Definition when (b : bool) (step : World → World * option exn)
    (r : World * option exn) : World * option exn :=
  match r with
  | (w, None) => if b then step w else (w, None)
  | (w, Some e) => (w, Some e)
  end.

(** [Command.handle], for a given [app_names]; [None] when the fuel does
    not suffice.  Without [--graphviz] the file name is [None] and line
    143 raises before any file is touched. *)
Definition handle (fuel : nat) (app_names : list string) (listing : Listing)
    (options : Options) (disk : gmap string string) :
    option (World * option exn) :=
  let hide_squashed_nodes := negb (include_squashed options) in
  let st := read_migrations app_names listing in
  g ← build_graph fuel app_names hide_squashed_nodes st;
  match graphviz options with
  | None => Some ({| files := disk; output := stdout g |}, Some AttributeError)
  | Some graphviz_filename =>
      let text := graph_text hide_squashed_nodes st g in
      match write_graph graphviz_filename text disk with
      | (disk', Some e) =>
          Some ({| files := disk'; output := stdout g |}, Some e)
      | (disk', None) =>
          Some (when (remove_squashed_dependencies_opt options)
                  (remove_squashed_dependencies st)
                  (when (replace_squashed_dependencies_opt options)
                     (replace_squashed_dependencies re_sub decode encode st)
                     ({| files := disk'; output := stdout g |}, None)))
      end
  end.
End handle.

(** ** The processing order of the declared replacements

    Every pair (replaced, squashing) that the reading loop stores, in the
    order in which it stores them. *)

(** What one element of [replaces] makes the loop store. *)
Definition declared (app_names : list string) (self : RecordId)
    (replaced : entry) : list (RecordId * RecordId) :=
  match replaced with
  | NotTuple _ => []
  | Tup r => if bool_decide (r.1 ∈ app_names) then [(r, self)] else []
  end.

(** What the [replaces] of one file makes the loop store. *)
Definition file_declarations (app_names : list string) (app_name : string)
    (f : MigrationFile) : list (RecordId * RecordId) :=
  replaces (migration f) ≫= declared app_names (app_name, migration_name f).

(** What the whole reading stores, in order. *)
Definition declarations (app_names : list string) (listing : Listing) :
    list (RecordId * RecordId) :=
  app_name ← app_names;
  f ← listing app_name;
  replaced ← replaces (migration f);
  declared app_names (app_name, migration_name f) replaced.

(** The squashing record of the last declaration that names [k]. *)
Definition last_declared (k : RecordId) (decls : list (RecordId * RecordId)) :
    option RecordId :=
  snd <$> last (filter (λ d, d.1 = k) decls).

(** [replaced_nodes[replaced] = squashing] *)
Definition store (rn : list (RecordId * RecordId)) (d : RecordId * RecordId) :
    list (RecordId * RecordId) :=
  od_set d.1 d.2 rn.

(** What the reading loop maintains. *)
Record read_inv (app_names : list string) (st : Loaded) : Prop := {
  inv_migrations_NoDup : NoDup (migrations st).*1;
  inv_paths_keys : (migration_paths st).*1 = (migrations st).*1;
  inv_keys_apps : ∀ k, k ∈ (migrations st).*1 → k.1 ∈ app_names;
  inv_replaced : ∀ k v, (k, v) ∈ replaced_nodes st →
    k.1 ∈ app_names ∧ v ∈ (migrations st).*1
}.

(** ** Replacements without a cycle *)

(** No chain of replacements comes back to where it started: some rank
    decreases from every replaced migration to its replacement. *)
Definition acyclic (rn : list (RecordId * RecordId)) : Prop :=
  ∃ rank : RecordId → nat, Forall (λ d, rank d.2 < rank d.1) rn.

(** The number of replacements that the loop follows from [src] within
    [fuel] evaluations of its condition. *)
Fixpoint hops (fuel : nat) (rn : list (RecordId * RecordId)) (src : RecordId) :
    nat :=
  match fuel with
  | O => 0
  | S fuel' =>
      match od_get rn src with
      | Some next => S (hops fuel' rn next)
      | None => 0
      end
  end.

(** [path] leads from [x] to [y] along the replacements. *)
Fixpoint chain (rn : list (RecordId * RecordId)) (x : RecordId)
    (path : list RecordId) (y : RecordId) : Prop :=
  match path with
  | [] => x = y
  | z :: path' => od_get rn x = Some z ∧ chain rn z path' y
  end.

(** ** The graph and its notices *)

(** [dst in edges[src]], without creating the entry. *)
Definition has_edge (g : Graph) (src dst : RecordId) : Prop :=
  dst ∈ default ∅ (edges g !! src).

(** Both ends of every edge are registered nodes. *)
Definition graph_ok (g : Graph) : Prop :=
  ∀ src dst, has_edge g src dst → src ∈ all_nodes g ∧ dst ∈ all_nodes g.

(** The same while the dependencies of [dst] are processed: [dst] itself
    is registered when they all have been. *)
Definition inner_ok (dst : RecordId) (g : Graph) : Prop :=
  ∀ src d, has_edge g src d →
    src ∈ all_nodes g ∧ (d = dst ∨ d ∈ all_nodes g).

(** Where a registered node comes from: a loaded migration of a selected
    application, or the migration on which the loop stopped for one of
    its dependencies. *)
Definition node_origin (fuel : nat) (app_names : list string) (hide : bool)
    (st : Loaded) (x : RecordId) : Prop :=
  (x ∈ (migrations st).*1 ∧ x.1 ∈ app_names) ∨
  ∃ dst mig o, (dst, mig) ∈ migrations st ∧ dst.1 ∈ app_names ∧
    Tup o ∈ dependencies mig ∧
    follow fuel (replaced_nodes st) hide o = Some x ∧ x.1 ∈ app_names.

(** The notice that one dependency of [dst] gives rise to, if any:
    one is written when the resolved migration differs from the declared
    one; it is an error when [dst] is itself replaced, a success otherwise. *)
Definition diagnostic (replaced_nodes : list (RecordId * RecordId))
    (dst original resolved : RecordId) : list Notice :=
  if decide (resolved = original) then []
  else [ {| notice_style := if od_mem replaced_nodes dst then ERROR else SUCCESS;
            notice_text := replaced_message original resolved dst
                             (od_mem replaced_nodes dst) |} ].

(** The notices of one element of [dependencies]. *)
Definition dependency_diagnostics (fuel : nat) (hide_squashed_nodes : bool)
    (replaced_nodes : list (RecordId * RecordId)) (dst : RecordId)
    (dep : entry) : list Notice :=
  match dep with
  | NotTuple _ => []
  | Tup original =>
      match follow fuel replaced_nodes hide_squashed_nodes original with
      | Some resolved => diagnostic replaced_nodes dst original resolved
      | None => []
      end
  end.

(** All the notices of the construction of the graph, in order. *)
Definition diagnostics (fuel : nat) (app_names : list string)
    (hide_squashed_nodes : bool) (st : Loaded) : list Notice :=
  item ← migrations st;
  if bool_decide (item.1.1 ∈ app_names) then
    dependencies item.2
      ≫= dependency_diagnostics fuel hide_squashed_nodes (replaced_nodes st)
                                item.1
  else [].

(** ** The files that the two operations touch *)

(** A dependency that the rewriting substitutes: a tuple that is a key of
    [replaced_nodes]. *)
Definition replaced_dep (replaced_nodes : list (RecordId * RecordId))
    (dep : entry) : bool :=
  match dep with
  | Tup src => od_mem replaced_nodes src
  | NotTuple _ => false
  end.

(** The paths of the loaded migrations that are keys of [replaced_nodes],
    in the order of [migration_paths]. *)
Definition squashed_paths (st : Loaded) (items : list (RecordId * string)) :
    list string :=
  (filter (λ item, od_mem (replaced_nodes st) item.1 = true) items).*2.

(** ** Entries that are not tuples

    The same migrations without the elements of [dependencies] and
    [replaces] that are not tuples. *)
Definition strip_migration (m : Migration) : Migration :=
  {| dependencies := filter (λ e, is_tuple e = true) (dependencies m);
     replaces := filter (λ e, is_tuple e = true) (replaces m) |}.

Definition strip_file (f : MigrationFile) : MigrationFile :=
  {| migration_name := migration_name f;
     migration := strip_migration (migration f);
     migration_abspath := migration_abspath f |}.

Definition strip_listing (listing : Listing) : Listing :=
  λ app_name, strip_file <$> listing app_name.

(** Two readings that differ only by the elements that are not tuples. *)
Definition stripped (st st' : Loaded) : Prop :=
  migrations st' = (λ item, (item.1, strip_migration item.2)) <$> migrations st ∧
  migration_paths st' = migration_paths st ∧
  replaced_nodes st' = replaced_nodes st.

(** ** Scenarios *)

(** A migration module of the application [app_name]. *)
Definition module (app_name name : string) (deps reps : list entry) :
    MigrationFile :=
  {| migration_name := name;
     migration := {| dependencies := deps; replaces := reps |};
     migration_abspath :=
       "/srv/" +:+ app_name +:+ "/migrations/" +:+ name +:+ ".py" |}.

(** A project with the single application [app]. *)
Definition only_app (fs : list MigrationFile) : Listing :=
  λ app_name, if bool_decide (app_name = "app") then fs else [].

(** Two migrations squashed into a third one, and a fourth one that still
    depends on the second. *)
Definition squash_listing : Listing :=
  only_app [ module "app" "0001" [] [];
             module "app" "0002" [Tup ("app", "0001")] [];
             module "app" "0003_squashed" []
               [Tup ("app", "0001"); Tup ("app", "0002")];
             module "app" "0004" [Tup ("app", "0002")] [] ].

(** A rank for [squash_listing]: the squashing migration is below the
    two that it replaces. *)
Definition squash_rank (t : RecordId) : nat :=
  if bool_decide (t = ("app", "0003_squashed")) then 0 else 1.

(** A migration squashed twice: 0001 into 0002_squashed, and that one into
    0003_squashed, while 0004 still depends on 0001. *)
Definition chain_listing : Listing :=
  only_app [ module "app" "0001" [] [];
             module "app" "0002_squashed" [] [Tup ("app", "0001")];
             module "app" "0003_squashed" [] [Tup ("app", "0002_squashed")];
             module "app" "0004" [Tup ("app", "0001")] [] ].

(** Two migrations that declare each other replaced. *)
Definition cycle_listing : Listing :=
  only_app [ module "app" "0001" [] [Tup ("app", "0002")];
             module "app" "0002" [] [Tup ("app", "0001")];
             module "app" "0003" [Tup ("app", "0001")] [] ].

(** A migration that lists itself in [replaces]. *)
Definition self_listing : Listing :=
  only_app [ module "app" "0001" [] [Tup ("app", "0001")] ].

(** The squashed migration is not on disk any more and nothing depends
    on it. *)
Definition cleaned_listing : Listing :=
  only_app [ module "app" "0002_squashed" [] [Tup ("app", "0001")];
             module "app" "0003" [Tup ("app", "0002_squashed")] [] ].

(** The squashed migration is still on disk but nothing depends on it. *)
Definition unreferenced_listing : Listing :=
  only_app [ module "app" "0001" [] [];
             module "app" "0002_squashed" [] [Tup ("app", "0001")];
             module "app" "0003" [Tup ("app", "0002_squashed")] [] ].

(** Two applications: b:0001 depends on a:0001 and has been squashed;
    b:0003 depends on a:0002. *)
Definition cross_listing : Listing :=
  λ app_name,
    if bool_decide (app_name = "a") then
      [ module "a" "0001" [] []; module "a" "0002" [] [] ]
    else if bool_decide (app_name = "b") then
      [ module "b" "0001" [Tup ("a", "0001")] [];
        module "b" "0002_squashed" [] [Tup ("b", "0001")];
        module "b" "0003" [Tup ("a", "0002")] [] ]
    else [].

(** A migration whose [replaces] holds a string instead of a tuple. *)
Definition untyped_listing : Listing :=
  only_app [ module "app" "0001" [NotTuple "app.0000"] [NotTuple "app.0000"] ].

(** A disk with one file for every module of a listing of [app]. *)
Definition disk_of (fs : list MigrationFile) : gmap string string :=
  list_to_map ((λ f, (migration_abspath f, "# " +:+ migration_name f)) <$> fs).

(** The disks of two of the scenarios, nothing written yet. *)
Definition squash_world : World :=
  {| files := disk_of (squash_listing "app"); output := [] |}.

Definition unreferenced_world : World :=
  {| files := disk_of (unreferenced_listing "app"); output := [] |}.

(** The scenarios stay within the modelled part of [re]: what stands for
    the rest is never reached. *)
Definition no_sre (pattern repl s : string) : string + exn :=
  inr (OtherError "NotImplementedError").

(** A file that is read and written back as it is. *)
Definition settled (decode encode : string → option string) (w : World)
    (p : string) : Prop :=
  ∃ bytes content, files w !! p = Some bytes ∧ decode bytes = Some content ∧
                   encode content = Some bytes.

(** A chain of three squashes: 0005 still depends on 0001. *)
Definition long_chain_listing : Listing :=
  only_app [ module "app" "0001" [] [];
             module "app" "0002_squashed" [] [Tup ("app", "0001")];
             module "app" "0003_squashed" [] [Tup ("app", "0002_squashed")];
             module "app" "0004_squashed" [] [Tup ("app", "0003_squashed")];
             module "app" "0005" [Tup ("app", "0001")] [] ].

(** The end of a line in a file written on Windows. *)
Definition crlf : string := String (ascii_of_nat 13) nl.

(** The rewriting where the text layer is that of the ASCII encoding. *)
Definition ascii_rewrite (st : Loaded) (w : World) : World * option exn :=
  replace_squashed_dependencies (py_re_sub no_sre) ascii_decode ascii_encode
    st w.

(** The files of [unreferenced_listing], the lines of 0001 ending with a
    carriage return and a line feed. *)
Definition crlf_world : World :=
  {| files := <["/srv/app/migrations/0001.py" := "# 0001" +:+ crlf]>
                (files unreferenced_world);
     output := [] |}.

(** The same for [squash_listing]. *)
Definition squash_crlf_world : World :=
  {| files := <["/srv/app/migrations/0001.py" := "# 0001" +:+ crlf]>
                (files squash_world);
     output := [] |}.

(** A migration whose name holds an opening parenthesis, squashed into
    [ab]; [c] depends on both. *)
Definition paren_listing : Listing :=
  only_app [ module "app" "a(b" [] [];
             module "app" "ab" [] [Tup ("app", "a(b")];
             module "app" "c" [Tup ("app", "a(b"); Tup ("app", "ab")] [] ].

(** The source of [c], with what a rewriting may have added after its
    second dependency. *)
Definition paren_source (added : string) : string :=
  "dependencies = [" +:+ name ("app", "a(b") +:+ ", " +:+ name ("app", "ab")
    +:+ added +:+ "]" +:+ nl.

Definition paren_world : World :=
  {| files := <["/srv/app/migrations/c.py" := paren_source EmptyString]>
                (disk_of (paren_listing "app"));
     output := [] |}.

(** ** The order of the lines *)

(** Strictly before, for [sorted]. *)
Definition tuple_lt (a b : RecordId) : Prop := tuple_le a b ∧ a ≠ b.

(** The order in which the regular edge lines are written: by source,
    then by destination. *)
Definition edge_lt (l1 l2 : line) : Prop :=
  match l1, l2 with
  | Edge s1 d1, Edge s2 d2 => tuple_lt s1 s2 ∨ (s1 = s2 ∧ tuple_lt d1 d2)
  | _, _ => False
  end.

(** * Properties *)

(** ** Insertion-ordered dicts *)

Section odict_facts.
Context {K V : Type} `{EqDecision K}.
Implicit Types (d : list (K * V)) (k : K) (v : V).

Lemma od_get_set_eq k v d : od_get (od_set k v d) k = Some v.
Proof.
  induction d as [|[k' v'] d IH]; simpl.
  - by rewrite decide_True.
  - destruct (decide (k = k')) as [->|Hne]; simpl.
    + by rewrite decide_True.
    + by rewrite decide_False.
Qed.

Lemma od_get_set_ne k k' v d : k ≠ k' → od_get (od_set k v d) k' = od_get d k'.
Proof.
  intros Hne. induction d as [|[k0 v0] d IH]; simpl.
  - by rewrite decide_False.
  - destruct (decide (k = k0)) as [->|?]; simpl.
    + by rewrite !decide_False.
    + by rewrite IH.
Qed.

Lemma od_get_set k k' v d :
  od_get (od_set k v d) k' = if decide (k = k') then Some v else od_get d k'.
Proof.
  destruct (decide (k = k')) as [->|?];
    [apply od_get_set_eq | by apply od_get_set_ne].
Qed.

Lemma od_set_same k v d : od_get d k = Some v → od_set k v d = d.
Proof.
  induction d as [|[k' v'] d IH]; simpl; [done|].
  destruct (decide (k = k')) as [->|?]; [naive_solver|].
  intros ?. by rewrite IH.
Qed.

Lemma od_get_Some_elem d k v : od_get d k = Some v → (k, v) ∈ d.
Proof.
  induction d as [|[k' v'] d IH]; simpl; [done|].
  destruct (decide (k = k')) as [->|?].
  - intros [= ->]. left.
  - intros ?. right. auto.
Qed.

Lemma od_get_None_keys d k : od_get d k = None ↔ k ∉ d.*1.
Proof.
  induction d as [|[k' v'] d IH]; simpl.
  - split; [intros _; apply not_elem_of_nil | done].
  - rewrite not_elem_of_cons. destruct (decide (k = k')) as [->|?].
    + split; [done | by intros [? _]].
    + rewrite IH. split; [done | by intros [_ ?]].
Qed.

Lemma od_mem_keys d k : od_mem d k = true ↔ k ∈ d.*1.
Proof.
  unfold od_mem. destruct (od_get d k) eqn:Hg.
  - split; [intros _|done]. apply od_get_Some_elem in Hg.
    apply list_elem_of_fmap. by exists (k, v).
  - apply od_get_None_keys in Hg. naive_solver.
Qed.

Lemma od_mem_false d k : od_mem d k = false ↔ od_get d k = None.
Proof. unfold od_mem. destruct (od_get d k); naive_solver. Qed.

Lemma od_mem_true d k : od_mem d k = true ↔ is_Some (od_get d k).
Proof.
  unfold od_mem. destruct (od_get d k) eqn:Hg.
  - split; [by eexists | done].
  - split; [done | by intros [? ?]].
Qed.

Lemma od_elem_get d k v : NoDup d.*1 → (k, v) ∈ d → od_get d k = Some v.
Proof.
  induction d as [|[k' v'] d IH]; simpl; [by intros _ ?%elem_of_nil|].
  intros [Hnotin Hnd]%NoDup_cons [Heq|Hin]%elem_of_cons.
  - injection Heq as -> ->. by rewrite decide_True.
  - destruct (decide (k = k')) as [->|?]; [|by apply IH].
    exfalso. apply Hnotin, list_elem_of_fmap. by exists (k', v).
Qed.

Lemma od_set_keys k v d :
  (od_set k v d).*1 = if od_mem d k then d.*1 else d.*1 ++ [k].
Proof.
  unfold od_mem. induction d as [|[k' v'] d IH]; csimpl; [done|].
  destruct (decide (k = k')) as [->|?]; csimpl; [done|].
  rewrite IH. by destruct (od_get d k).
Qed.

Lemma od_set_NoDup k v d : NoDup d.*1 → NoDup (od_set k v d).*1.
Proof.
  intros Hnd. rewrite od_set_keys. destruct (od_mem d k) eqn:Hm; [done|].
  apply NoDup_app. split_and!; [done| |apply NoDup_singleton].
  intros x Hx ->%list_elem_of_singleton.
  apply od_mem_keys in Hx. congruence.
Qed.
End odict_facts.

(** ** Loops *)

Section for_each_facts.
Context {A S : Type} (body : S → A → option S).

Lemma for_each_app s l1 l2 :
  for_each body s (l1 ++ l2) = s' ← for_each body s l1; for_each body s' l2.
Proof.
  revert s. induction l1 as [|x l1 IH]; intros s; simpl; [done|].
  destruct (body s x); simpl; [apply IH | done].
Qed.

(** The invariant rule of the loop. *)
Lemma for_each_inv (P : S → Prop) l s s' :
  P s →
  (∀ s1 x s2, x ∈ l → P s1 → body s1 x = Some s2 → P s2) →
  for_each body s l = Some s' → P s'.
Proof.
  revert s. induction l as [|x l IH]; intros s Hs Hstep; simpl.
  - by intros [= <-].
  - destruct (body s x) as [s1|] eqn:Hb; simpl; [|done].
    apply IH.
    + eapply Hstep; [left | done..].
    + intros s2 y s3 Hy. apply Hstep. by right.
Qed.

(** The iteration on a given element of the list. *)
Lemma for_each_at l x s s' :
  x ∈ l → for_each body s l = Some s' →
  ∃ l1 l2 s1 s2, l = l1 ++ x :: l2 ∧ for_each body s l1 = Some s1 ∧
    body s1 x = Some s2 ∧ for_each body s2 l2 = Some s'.
Proof.
  intros (l1 & l2 & ->)%list_elem_of_split. rewrite for_each_app.
  destruct (for_each body s l1) as [s1|] eqn:H1; simpl; [|done].
  destruct (body s1 x) as [s2|] eqn:H2; simpl; [|done].
  intros H3. by exists l1, l2, s1, s2.
Qed.
End for_each_facts.

Lemma for_each_None {A S : Type} (body : S → A → option S) l x s :
  x ∈ l → (∀ s', body s' x = None) → for_each body s l = None.
Proof.
  intros Hx Hnone. revert s.
  induction l as [|y l IH]; intros s; [by apply elem_of_nil in Hx|].
  simpl. apply elem_of_cons in Hx as [<-|Hx]; [by rewrite Hnone|].
  destruct (body s y); simpl; [by apply IH | done].
Qed.

(** ** Reading the migrations *)


Lemma od_get_foldl_store rn decls k :
  od_get (foldl store rn decls) k
  = match last_declared k decls with Some v => Some v | None => od_get rn k end.
Proof.
  unfold last_declared.
  induction decls as [|d decls IH] using rev_ind; [done|].
  rewrite foldl_snoc, filter_app. unfold store at 1.
  rewrite od_get_set, IH. destruct (decide (d.1 = k)) as [Hd|Hd].
  - rewrite filter_cons_True, filter_nil by done. by rewrite last_snoc.
  - rewrite filter_cons_False, filter_nil by done. by rewrite app_nil_r.
Qed.

Lemma foldl_read_replaced app_names self rn l :
  foldl (read_replaced app_names self) rn l
  = foldl store rn (l ≫= declared app_names self).
Proof.
  revert rn. induction l as [|e l IH]; intros rn; [done|].
  rewrite bind_cons, foldl_app. simpl. rewrite IH.
  destruct e as [r|]; simpl; [|done]. by case_bool_decide.
Qed.


Lemma read_app_replaced app_names app_name st fs :
  replaced_nodes (foldl (read_file app_names app_name) st fs)
  = foldl store (replaced_nodes st) (fs ≫= file_declarations app_names app_name).
Proof.
  revert st. induction fs as [|f fs IH]; intros st; [done|].
  rewrite bind_cons, foldl_app. simpl. rewrite IH. simpl.
  by rewrite foldl_read_replaced.
Qed.

Lemma read_apps_replaced app_names listing st apps :
  replaced_nodes (foldl (read_app app_names listing) st apps)
  = foldl store (replaced_nodes st)
      (apps ≫= λ app_name, listing app_name ≫= file_declarations app_names app_name).
Proof.
  revert st. induction apps as [|a apps IH]; intros st; [done|].
  rewrite bind_cons, foldl_app. simpl. rewrite IH. f_equal.
  apply read_app_replaced.
Qed.

Lemma read_migrations_replaced app_names listing :
  replaced_nodes (read_migrations app_names listing)
  = foldl store [] (declarations app_names listing).
Proof. unfold read_migrations. by rewrite read_apps_replaced. Qed.

Lemma foldl_store_NoDup rn decls : NoDup rn.*1 → NoDup (foldl store rn decls).*1.
Proof.
  revert rn. induction decls as [|d decls IH]; intros rn Hrn; [done|].
  simpl. apply IH. by apply od_set_NoDup.
Qed.

Lemma replaced_nodes_NoDup app_names listing :
  NoDup (replaced_nodes (read_migrations app_names listing)).*1.
Proof. rewrite read_migrations_replaced. apply foldl_store_NoDup, NoDup_nil_2. Qed.

Lemma od_set_elem {K V} `{EqDecision K} (k k' : K) (v v' : V) d :
  (k', v') ∈ od_set k v d → (k', v') = (k, v) ∨ (k', v') ∈ d.
Proof.
  induction d as [|[k0 v0] d IH]; simpl.
  - intros ->%list_elem_of_singleton. by left.
  - destruct (decide (k = k0)) as [->|?].
    + intros [->|?]%elem_of_cons; [by left | right; by right].
    + intros [->|?]%elem_of_cons; [right; left|].
      destruct IH as [?|?]; [done | by left | right; by right].
Qed.

Lemma od_set_keys_elem {K V} `{EqDecision K} (k k' : K) (v : V) d :
  k' ∈ (od_set k v d).*1 ↔ k' = k ∨ k' ∈ d.*1.
Proof.
  rewrite od_set_keys. destruct (od_mem d k) eqn:Hm.
  - apply od_mem_keys in Hm. split; [by right | by intros [->|?]].
  - rewrite elem_of_app, list_elem_of_singleton. tauto.
Qed.

Lemma od_mem_ext {K V W} `{EqDecision K} (d1 : list (K * V))
    (d2 : list (K * W)) (k : K) :
  d1.*1 = d2.*1 → od_mem d1 k = od_mem d2 k.
Proof.
  intros Heq. destruct (od_mem d2 k) eqn:Hm.
  - apply od_mem_keys. rewrite Heq. by apply od_mem_keys.
  - apply not_true_is_false. rewrite od_mem_keys, Heq, <-od_mem_keys.
    congruence.
Qed.


Lemma read_replaced_elems app_names self rn l k v :
  (k, v) ∈ foldl (read_replaced app_names self) rn l →
  (k, v) ∈ rn ∨ (v = self ∧ k.1 ∈ app_names).
Proof.
  revert rn. induction l as [|e l IH]; intros rn; simpl; [by left|].
  intros [Hin|?]%IH; [|by right].
  destruct e as [r|]; simpl in Hin; [|by left].
  case_bool_decide; [|by left].
  apply od_set_elem in Hin as [[= -> ->]|?]; [by right | by left].
Qed.

Lemma read_file_inv app_names app_name st f :
  app_name ∈ app_names → read_inv app_names st →
  read_inv app_names (read_file app_names app_name st f).
Proof.
  intros Happ [Hnd Hp Hk Hr]. split; simpl.
  - by apply od_set_NoDup.
  - rewrite !od_set_keys, Hp.
    by rewrite (od_mem_ext (migration_paths st) (migrations st)).
  - intros k [->|?]%od_set_keys_elem; [done | by apply Hk].
  - intros k v [Hin|[-> ?]]%read_replaced_elems.
    + destruct (Hr _ _ Hin). split; [done|]. apply od_set_keys_elem. by right.
    + split; [done|]. apply od_set_keys_elem. by left.
Qed.

Lemma read_apps_inv app_names listing st apps :
  (∀ a, a ∈ apps → a ∈ app_names) → read_inv app_names st →
  read_inv app_names (foldl (read_app app_names listing) st apps).
Proof.
  revert st. induction apps as [|a apps IH]; intros st Happs Hst; [done|].
  simpl. apply IH; [intros b ?; apply Happs; by right|].
  assert (a ∈ app_names) as Ha by (apply Happs; left).
  unfold read_app. generalize (listing a). intros fs. revert st Hst.
  induction fs as [|f fs IHf]; intros st Hst; [done|].
  simpl. by apply IHf, read_file_inv.
Qed.

Lemma read_migrations_inv app_names listing :
  read_inv app_names (read_migrations app_names listing).
Proof.
  apply read_apps_inv; [done|].
  split; simpl; [apply NoDup_nil_2 | done | |].
  - by intros k ?%elem_of_nil.
  - by intros k v ?%elem_of_nil.
Qed.

(** C8, as stated, fails: a migration that names itself in [replaces] is a
    key of [replaced_nodes] that maps to itself. *)
Lemma replaced_by_itself :
  od_get (replaced_nodes (read_migrations ["app"] self_listing)) ("app", "0001")
  = Some ("app", "0001").
Proof. vm_compute. reflexivity. Qed.

(** C8 (amended): the keys of [replaced_nodes] are distinct, so that a
    replaced migration has one replacement, and this replacement is the
    squashing migration of the last declaration, in the order of the
    reading loop, that names it in [replaces]; [replaced_nodes] holds
    nothing else. *)
Theorem replaced_nodes_last_writer (app_names : list string)
    (listing : Listing) :
  NoDup (replaced_nodes (read_migrations app_names listing)).*1 ∧
  ∀ k, od_get (replaced_nodes (read_migrations app_names listing)) k
       = last_declared k (declarations app_names listing).
Proof.
  split; [apply replaced_nodes_NoDup|]. intros k.
  rewrite read_migrations_replaced, od_get_foldl_store.
  by destruct (last_declared k _).
Qed.

(** ** Following the replacements *)

Lemma follow_visible rn src fuel : follow (S fuel) rn false src = Some src.
Proof. simpl. by destruct (od_get rn src). Qed.

Lemma follow_mono fuel fuel' rn hide src r :
  follow fuel rn hide src = Some r → fuel ≤ fuel' →
  follow fuel' rn hide src = Some r.
Proof.
  revert fuel' src. induction fuel as [|fuel IH]; intros fuel' src; [done|].
  intros Hf Hle. destruct fuel' as [|fuel']; [lia|]. simpl in *.
  destruct (od_get rn src) as [next|]; [|done].
  destruct hide; [|done]. apply IH; [done | lia].
Qed.

(** The value that the loop returns is one on which its condition fails. *)
Lemma follow_not_hidden fuel rn hide src r :
  follow fuel rn hide src = Some r → hidden rn hide r = false.
Proof.
  revert src. induction fuel as [|fuel IH]; intros src; [done|]. simpl.
  unfold hidden, od_mem.
  destruct (od_get rn src) as [next|] eqn:Hg.
  - destruct hide; [apply IH|]. intros [= <-]. by rewrite andb_false_r.
  - intros [= <-]. by rewrite Hg.
Qed.

(** A replacement map on which a rank strictly decreases has no cycle; the
    loop then leaves within as many steps as the map has keys. *)
Lemma follow_ranked (rank : RecordId → nat) rn :
  Forall (λ d, rank d.2 < rank d.1) rn →
  ∀ n seen src,
    NoDup seen → (∀ x, x ∈ seen → x ∈ rn.*1 ∧ rank src < rank x) →
    length rn ≤ length seen + n →
    is_Some (follow (S n) rn true src).
Proof.
  intros Hrank n. induction n as [|n IH]; intros seen src Hnd Hseen Hlen.
  - simpl. destruct (od_get rn src) as [next|] eqn:Hg; [|by eexists].
    exfalso. assert (NoDup (src :: seen)) as Hnd'.
    { apply NoDup_cons. split; [|done]. intros [_ ?]%Hseen. lia. }
    assert (length (src :: seen) ≤ length rn.*1) as Hle.
    { apply submseteq_length, NoDup_submseteq; [done|].
      intros x [->|Hx]%elem_of_cons; [|by apply Hseen].
      apply od_mem_keys, od_mem_true. by eexists. }
    rewrite length_fmap in Hle. simpl in Hle. lia.
  - change (follow (S (S n)) rn true src)
      with (match od_get rn src with
            | Some next => follow (S n) rn true next
            | None => Some src
            end).
    destruct (od_get rn src) as [next|] eqn:Hg; [|by eexists].
    assert (rank next < rank src) as Hlt.
    { apply od_get_Some_elem in Hg.
      by apply (proj1 (Forall_forall _ _) Hrank) in Hg. }
    apply (IH (src :: seen)).
    + apply NoDup_cons. split; [|done]. intros [_ ?]%Hseen. lia.
    + intros x [->|Hx]%elem_of_cons.
      * split; [|done]. apply od_mem_keys, od_mem_true. by eexists.
      * destruct (Hseen _ Hx). split; [done | lia].
    + simpl. lia.
Qed.

Lemma follow_total rn hide src :
  (hide = true → acyclic rn) →
  is_Some (follow (S (length rn)) rn hide src).
Proof.
  destruct hide; [|rewrite follow_visible; by eexists].
  intros [rank Hrank]; [done|].
  apply (follow_ranked rank rn Hrank (length rn) []);
    [apply NoDup_nil_2 | by intros x ?%elem_of_nil | simpl; lia].
Qed.

(** The loop follows a chain of replacements to its end, however long. *)
Lemma follow_chain rn x path y :
  chain rn x path y → od_get rn y = None →
  follow (S (length path)) rn true x = Some y.
Proof.
  revert x. induction path as [|z path IH]; intros x; simpl.
  - intros -> ->. done.
  - intros [-> Hpath] Hy. by apply IH.
Qed.

Lemma hops_stable fuel rn src r :
  follow fuel rn true src = Some r → hops (S fuel) rn src = hops fuel rn src.
Proof.
  revert src. induction fuel as [|fuel IH]; intros src; [done|].
  change (follow (S fuel) rn true src)
    with (match od_get rn src with
          | Some next => follow fuel rn true next
          | None => Some src
          end).
  change (hops (S (S fuel)) rn src)
    with (match od_get rn src with
          | Some next => S (hops (S fuel) rn next)
          | None => 0
          end).
  change (hops (S fuel) rn src)
    with (match od_get rn src with
          | Some next => S (hops fuel rn next)
          | None => 0
          end).
  destruct (od_get rn src) as [next|]; [|done].
  intros Hf. f_equal. by apply IH.
Qed.

(** The condition of C1 (amended) is the right one: the replacements have
    no cycle exactly when the loop is left from wherever it starts. *)
Lemma acyclic_iff_terminating rn :
  NoDup rn.*1 →
  acyclic rn ↔ ∀ src, ∃ fuel r, follow fuel rn true src = Some r.
Proof.
  intros Hnd. split.
  - intros Hacyclic src.
    destruct (follow_total rn true src (λ _, Hacyclic)) as [r Hr]. eauto.
  - intros Hterm.
    assert (∃ F, ∀ v, v ∈ rn.*2 → is_Some (follow F rn true v)) as [F HF].
    { generalize (rn.*2). intros vs. induction vs as [|v vs [F HF]].
      - exists 0. by intros v ?%elem_of_nil.
      - destruct (Hterm v) as (Fv & r & Hr). exists (F `max` Fv).
        intros x [->|Hx]%elem_of_cons.
        + exists r. eapply follow_mono; [done | lia].
        + destruct (HF x Hx) as [r' Hr']. exists r'.
          eapply follow_mono; [done | lia]. }
    exists (hops (S F) rn). apply Forall_forall. intros [k v] Hin.
    cbn [fst snd].
    destruct (HF v) as [r Hr].
    { apply list_elem_of_fmap. by exists (k, v). }
    rewrite (hops_stable _ _ _ _ Hr).
    change (hops (S F) rn k)
      with (match od_get rn k with
            | Some next => S (hops F rn next)
            | None => 0
            end).
    rewrite (od_elem_get _ _ _ Hnd Hin). lia.
Qed.

(** The graph is not built as long as one loop is still running. *)
Lemma build_graph_stuck fuel app_names hide st dst mig o :
  (dst, mig) ∈ migrations st → dst.1 ∈ app_names →
  Tup o ∈ dependencies mig →
  follow fuel (replaced_nodes st) hide o = None →
  build_graph fuel app_names hide st = None.
Proof.
  intros Hdst Happ Ho Hf. unfold build_graph.
  apply (for_each_None _ _ (dst, mig)); [done|]. intros g. simpl.
  rewrite bool_decide_eq_true_2 by done.
  rewrite (for_each_None _ _ (Tup o)); [done..|].
  intros g'. simpl. by rewrite Hf.
Qed.

(** C1, as stated, fails: on two migrations that replace each other the
    loop is still running whatever the fuel, and the graph is never built;
    so is the loop on a migration that replaces itself. *)
Lemma cycle_never_left :
  ¬ (∃ fuel r,
       follow fuel (replaced_nodes (read_migrations ["app"] cycle_listing))
              true ("app", "0001") = Some r) ∧
  ¬ (∃ fuel g,
       build_graph fuel ["app"] true (read_migrations ["app"] cycle_listing)
       = Some g) ∧
  ¬ (∃ fuel r,
       follow fuel (replaced_nodes (read_migrations ["app"] self_listing))
              true ("app", "0001") = Some r).
Proof.
  assert (∀ fuel,
    follow fuel (replaced_nodes (read_migrations ["app"] self_listing)) true
           ("app", "0001") = None) as Hself.
  { induction fuel as [|fuel IH]; [done|].
    change (follow fuel
      (replaced_nodes (read_migrations ["app"] self_listing)) true
      ("app", "0001") = None). done. }
  assert (∀ fuel,
    follow fuel (replaced_nodes (read_migrations ["app"] cycle_listing)) true
           ("app", "0001") = None ∧
    follow fuel (replaced_nodes (read_migrations ["app"] cycle_listing)) true
           ("app", "0002") = None) as Hloop.
  { induction fuel as [|fuel [IH1 IH2]]; [done|]. split.
    - change (follow fuel
        (replaced_nodes (read_migrations ["app"] cycle_listing)) true
        ("app", "0002") = None). done.
    - change (follow fuel
        (replaced_nodes (read_migrations ["app"] cycle_listing)) true
        ("app", "0001") = None). done. }
  split_and!.
  - intros (fuel & r & Hr). destruct (Hloop fuel) as [H1 _]. congruence.
  - intros (fuel & g & Hg). destruct (Hloop fuel) as [H1 _].
    rewrite (build_graph_stuck fuel ["app"] true _ ("app", "0003")
               {| dependencies := [Tup ("app", "0001")]; replaces := [] |}
               ("app", "0001")) in Hg; [done| | |left|done].
    + compute_done.
    + compute_done.
  - intros (fuel & r & Hr). rewrite Hself in Hr. done.
Qed.

(** C1 (amended): when no chain of replacements comes back to a migration
    (a rank decreases along [replaced_nodes]), or when the squashed nodes
    are shown, the loop is left after at most as many replacements as
    [replaced_nodes] has keys, on a migration on which its condition fails. *)
Theorem follow_terminates (replaced_nodes : list (RecordId * RecordId))
    (hide_squashed_nodes : bool) (src : RecordId) :
  (hide_squashed_nodes = true → acyclic replaced_nodes) →
  ∃ r, follow (S (length replaced_nodes)) replaced_nodes hide_squashed_nodes src
       = Some r ∧
       hidden replaced_nodes hide_squashed_nodes r = false.
Proof.
  intros Hacyclic.
  destruct (follow_total replaced_nodes hide_squashed_nodes src Hacyclic)
    as [r Hr].
  exists r. split; [done|]. by eapply follow_not_hidden.
Qed.

Lemma follow_terminates_witness :
  ∃ r, follow (S (length (replaced_nodes (read_migrations ["app"] squash_listing))))
         (replaced_nodes (read_migrations ["app"] squash_listing)) true
         ("app", "0002") = Some r ∧
       hidden (replaced_nodes (read_migrations ["app"] squash_listing)) true r
       = false.
Proof.
  apply (follow_terminates _ true ("app", "0002")).
  intros _. exists squash_rank. vm_compute. repeat constructor.
Defined.

(** ** Building the graph *)

Lemma has_edge_add g src dst s d :
  d ∈ default ∅ (edges_add src dst (edges g) !! s)
  ↔ (s = src ∧ d = dst) ∨ has_edge g s d.
Proof.
  unfold has_edge, edges_add. destruct (decide (src = s)) as [->|Hne].
  - rewrite lookup_insert_eq. simpl. rewrite elem_of_union, elem_of_singleton.
    naive_solver.
  - rewrite lookup_insert_ne by done. naive_solver.
Qed.

(** What one dependency does to the graph. *)
Lemma add_dependency_Some fuel app_names hide rn dst g dep g' :
  add_dependency fuel app_names hide rn dst g dep = Some g' →
  match dep with
  | NotTuple _ => g' = g
  | Tup o =>
      ∃ src, follow fuel rn hide o = Some src ∧
        stdout g' = stdout g ++ diagnostic rn dst o src ∧
        if bool_decide (src.1 ∈ app_names)
        then edges g' = edges_add src dst (edges g) ∧
             all_nodes g' = {[src]} ∪ all_nodes g
        else edges g' = edges g ∧ all_nodes g' = all_nodes g
  end.
Proof.
  destruct dep as [o|]; simpl; [|by intros [= <-]].
  destruct (follow fuel rn hide o) as [src|]; simpl; [|done].
  intros Hg. exists src. split; [done|].
  assert ((if decide (src ≠ o)
           then stdout g ++ [replaced_notice rn o src dst] else stdout g)
          = stdout g ++ diagnostic rn dst o src) as Hout.
  { unfold diagnostic, replaced_notice.
    destruct (decide (src = o)) as [->|Hne].
    - rewrite decide_False by naive_solver. by rewrite app_nil_r.
    - rewrite decide_True by done. by destruct (od_mem rn dst). }
  rewrite Hout in Hg. by case_bool_decide; injection Hg as <-.
Qed.

Lemma add_dependency_stdout fuel app_names hide rn dst g dep g' :
  add_dependency fuel app_names hide rn dst g dep = Some g' →
  stdout g' = stdout g ++ dependency_diagnostics fuel hide rn dst dep.
Proof.
  intros Hg%add_dependency_Some. destruct dep as [o|]; simpl.
  - destruct Hg as (src & -> & Hout & _). done.
  - subst. by rewrite app_nil_r.
Qed.

Lemma add_dependency_mono fuel app_names hide rn dst g dep g' :
  add_dependency fuel app_names hide rn dst g dep = Some g' →
  all_nodes g ⊆ all_nodes g' ∧ ∀ s d, has_edge g s d → has_edge g' s d.
Proof.
  intros Hg%add_dependency_Some. destruct dep as [o|]; [|by subst].
  destruct Hg as (src & _ & _ & Hg). case_bool_decide.
  - destruct Hg as [He Hn]. split; [set_solver|].
    intros s d Hsd. unfold has_edge. rewrite He, has_edge_add. by right.
  - destruct Hg as [He Hn]. unfold has_edge. rewrite He, Hn. done.
Qed.

Lemma add_dependency_inner_ok fuel app_names hide rn dst g dep g' :
  add_dependency fuel app_names hide rn dst g dep = Some g' →
  inner_ok dst g → inner_ok dst g'.
Proof.
  intros Hg%add_dependency_Some Hok. destruct dep as [o|]; [|by subst].
  destruct Hg as (src & _ & _ & Hg). case_bool_decide.
  - destruct Hg as [He Hn]. intros s d. unfold has_edge.
    rewrite He, has_edge_add, Hn. intros [[-> ->]|Hsd].
    + split; [set_solver | by left].
    + destruct (Hok _ _ Hsd) as [? [?|?]]; set_solver.
  - destruct Hg as [He Hn]. intros s d. unfold has_edge. rewrite He, Hn.
    apply Hok.
Qed.

(** The edge that a dependency adds. *)
Lemma add_dependency_edge fuel app_names hide rn dst g o src g' :
  add_dependency fuel app_names hide rn dst g (Tup o) = Some g' →
  follow fuel rn hide o = Some src → src.1 ∈ app_names →
  has_edge g' src dst.
Proof.
  intros (src' & Hf & _ & Hg)%add_dependency_Some Hsrc Happ.
  assert (src' = src) as -> by congruence.
  rewrite bool_decide_eq_true_2 in Hg by done. destruct Hg as [He _].
  unfold has_edge. rewrite He, has_edge_add. by left.
Qed.

Section dependencies_loop.
Context (fuel : nat) (app_names : list string) (hide : bool)
  (rn : list (RecordId * RecordId)) (dst : RecordId).

#[local] Abbreviation step := (add_dependency fuel app_names hide rn dst).

Lemma dependencies_stdout g deps g' :
  for_each step g deps = Some g' →
  stdout g' = stdout g ++ (deps ≫= dependency_diagnostics fuel hide rn dst).
Proof.
  revert g. induction deps as [|dep deps IH]; intros g Hg.
  - injection Hg as <-. by rewrite app_nil_r.
  - rewrite bind_cons. simpl in Hg.
    destruct (step g dep) as [g1|] eqn:H1; simpl in Hg; [|done].
    apply IH in Hg as ->. apply add_dependency_stdout in H1 as ->.
    by rewrite app_assoc.
Qed.

Lemma dependencies_mono g deps g' :
  for_each step g deps = Some g' →
  all_nodes g ⊆ all_nodes g' ∧ ∀ s d, has_edge g s d → has_edge g' s d.
Proof.
  apply (for_each_inv step (λ g', all_nodes g ⊆ all_nodes g' ∧
                                 ∀ s d, has_edge g s d → has_edge g' s d)).
  - done.
  - intros g1 dep g2 _ [Hn He] [Hn' He']%add_dependency_mono.
    split; [set_solver | auto].
Qed.

Lemma dependencies_inner_ok g deps g' :
  for_each step g deps = Some g' → inner_ok dst g → inner_ok dst g'.
Proof.
  intros Hg Hok. revert Hg. apply for_each_inv; [done|].
  intros g1 dep g2 _ ? ?. by eapply add_dependency_inner_ok.
Qed.

Lemma dependencies_edge g deps g' o src :
  for_each step g deps = Some g' → Tup o ∈ deps →
  follow fuel rn hide o = Some src → src.1 ∈ app_names →
  has_edge g' src dst.
Proof.
  intros Hg Ho Hf Happ.
  destruct (for_each_at step _ _ _ _ Ho Hg)
    as (l1 & l2 & g1 & g2 & _ & _ & Hstep & Hrest).
  apply dependencies_mono in Hrest as [_ Hrest]. apply Hrest.
  by eapply add_dependency_edge.
Qed.
End dependencies_loop.

Lemma add_migration_Some fuel app_names hide rn g dst mig g' :
  add_migration fuel app_names hide rn g (dst, mig) = Some g' →
  if bool_decide (dst.1 ∈ app_names) then
    ∃ g1, for_each (add_dependency fuel app_names hide rn dst) g
                   (dependencies mig) = Some g1 ∧
          edges g' = edges g1 ∧ all_nodes g' = {[dst]} ∪ all_nodes g1 ∧
          stdout g' = stdout g1
  else g' = g.
Proof.
  simpl. case_bool_decide; [|by intros [= <-]].
  destruct (for_each _ g (dependencies mig)) as [g1|]; simpl; [|done].
  intros [= <-]. by exists g1.
Qed.

Section migrations_loop.
Context (fuel : nat) (app_names : list string) (hide : bool)
  (rn : list (RecordId * RecordId)).

#[local] Abbreviation step := (add_migration fuel app_names hide rn).

Lemma add_migration_mono g item g' :
  step g item = Some g' →
  all_nodes g ⊆ all_nodes g' ∧ ∀ s d, has_edge g s d → has_edge g' s d.
Proof.
  destruct item as [dst mig]. intros Hg%add_migration_Some.
  case_bool_decide; [|by subst].
  destruct Hg as (g1 & [Hn He]%dependencies_mono & He' & Hn' & _).
  unfold has_edge in *. rewrite He', Hn'. split; [set_solver | done].
Qed.

Lemma add_migration_ok g item g' :
  step g item = Some g' → graph_ok g → graph_ok g'.
Proof.
  destruct item as [dst mig]. intros Hg%add_migration_Some Hok.
  case_bool_decide; [|by subst].
  destruct Hg as (g1 & Hg1 & He' & Hn' & _).
  assert (inner_ok dst g1) as Hin.
  { eapply dependencies_inner_ok; [done|].
    intros s d [? ?]%Hok. split; [done | by right]. }
  intros s d. unfold has_edge. rewrite He', Hn'.
  intros [? [->|?]]%Hin; set_solver.
Qed.

Lemma migrations_mono g items g' :
  for_each step g items = Some g' →
  all_nodes g ⊆ all_nodes g' ∧ ∀ s d, has_edge g s d → has_edge g' s d.
Proof.
  apply (for_each_inv step (λ g', all_nodes g ⊆ all_nodes g' ∧
                                 ∀ s d, has_edge g s d → has_edge g' s d)).
  - done.
  - intros g1 item g2 _ [Hn He] [Hn' He']%add_migration_mono.
    split; [set_solver | auto].
Qed.

Lemma migrations_ok g items g' :
  for_each step g items = Some g' → graph_ok g → graph_ok g'.
Proof.
  intros Hg Hok. revert Hg. apply for_each_inv; [done|].
  intros g1 item g2 _ ? ?. by eapply add_migration_ok.
Qed.

Lemma migrations_stdout g items g' :
  for_each step g items = Some g' →
  stdout g' = stdout g ++
    (items ≫= λ item,
       if bool_decide (item.1.1 ∈ app_names)
       then dependencies item.2 ≫= dependency_diagnostics fuel hide rn item.1
       else []).
Proof.
  revert g. induction items as [|[dst mig] items IH]; intros g Hg.
  - injection Hg as <-. by rewrite app_nil_r.
  - rewrite bind_cons. cbn [for_each] in Hg.
    destruct (step g (dst, mig)) as [g1|] eqn:H1; simpl in Hg; [|done].
    apply IH in Hg as ->. apply add_migration_Some in H1.
    rewrite app_assoc. f_equal. simpl. case_bool_decide.
    + destruct H1 as (g2 & ->%dependencies_stdout & _ & _ & ->). done.
    + subst. by rewrite app_nil_r.
Qed.

(** The node and the edges that a migration adds. *)
Lemma migrations_at g items g' dst mig :
  for_each step g items = Some g' → (dst, mig) ∈ items →
  dst.1 ∈ app_names →
  dst ∈ all_nodes g' ∧
  ∀ o src, Tup o ∈ dependencies mig → follow fuel rn hide o = Some src →
           src.1 ∈ app_names → has_edge g' src dst.
Proof.
  intros Hg Hin Happ.
  destruct (for_each_at step _ _ _ _ Hin Hg)
    as (l1 & l2 & g1 & g2 & _ & _ & Hstep%add_migration_Some & Hrest).
  apply migrations_mono in Hrest as [Hn He].
  rewrite bool_decide_eq_true_2 in Hstep by done.
  destruct Hstep as (g3 & Hdeps & He' & Hn' & _). split; [set_solver|].
  intros o src Ho Hf Hsrc. apply He. unfold has_edge. rewrite He'.
  by eapply dependencies_edge.
Qed.
End migrations_loop.

Lemma graph_ok_empty : graph_ok empty_graph.
Proof. intros s d. unfold has_edge. simpl. rewrite lookup_empty. set_solver. Qed.

Lemma build_graph_ok fuel app_names hide st g :
  build_graph fuel app_names hide st = Some g → graph_ok g.
Proof. intros Hg. eapply migrations_ok; [done | apply graph_ok_empty]. Qed.

Lemma build_graph_stdout fuel app_names hide st g :
  build_graph fuel app_names hide st = Some g →
  stdout g = diagnostics fuel app_names hide st.
Proof. by intros ->%migrations_stdout. Qed.

Lemma for_each_total {A S : Type} (body : S → A → option S) l s :
  (∀ s' x, x ∈ l → is_Some (body s' x)) → is_Some (for_each body s l).
Proof.
  revert s. induction l as [|x l IH]; intros s Hbody; simpl; [by eexists|].
  destruct (Hbody s x) as [s1 ->]; [left|]. simpl. apply IH.
  intros s' y ?. apply Hbody. by right.
Qed.

(** Without a cycle among the replacements, or when the squashed nodes
    are shown, the graph is built. *)
Lemma build_graph_total app_names hide st :
  (hide = true → acyclic (replaced_nodes st)) →
  is_Some (build_graph (S (length (replaced_nodes st))) app_names hide st).
Proof.
  intros Hacyclic. apply for_each_total. intros g [dst mig] _.
  unfold add_migration. case_bool_decide; [|by eexists].
  destruct (for_each_total
              (add_dependency (S (length (replaced_nodes st))) app_names hide
                 (replaced_nodes st) dst) (dependencies mig) g) as [g1 ->];
    [|by eexists].
  intros g' [o|] _; [|by eexists]. unfold add_dependency.
  destruct (follow_total (replaced_nodes st) hide o Hacyclic) as [src ->].
  simpl. case_bool_decide; by eexists.
Qed.

Lemma build_graph_nodes fuel app_names hide st g x :
  build_graph fuel app_names hide st = Some g →
  x ∈ all_nodes g ↔ node_origin fuel app_names hide st x.
Proof.
  intros Hg. split.
  - revert x. revert Hg. unfold build_graph.
    apply (for_each_inv _ (λ g, ∀ x, x ∈ all_nodes g → node_origin _ _ _ _ x));
      [set_solver|].
    intros g1 [dst mig] g2 Hin Hg1 Hstep%add_migration_Some.
    case_bool_decide as Happ; [|by subst].
    destruct Hstep as (g3 & Hdeps & _ & Hn & _). intros x. rewrite Hn.
    intros [->%elem_of_singleton|Hx]%elem_of_union.
    { left. split; [|done]. apply list_elem_of_fmap. by exists (dst, mig). }
    revert x Hx. revert Hdeps.
    apply (for_each_inv _ (λ g, ∀ x, x ∈ all_nodes g → node_origin _ _ _ _ x));
      [done|].
    intros g4 dep g5 Hdep Hg4 Hstep%add_dependency_Some x.
    destruct dep as [o|]; [|by subst; apply Hg4].
    destruct Hstep as (src & Hf & _ & Hstep). case_bool_decide as Hsrc.
    + destruct Hstep as [_ ->].
      intros [->%elem_of_singleton|Hx]%elem_of_union; [|by apply Hg4].
      right. by exists dst, mig, o.
    + destruct Hstep as [_ ->]. apply Hg4.
  - intros [[Hx Happ]|(dst & mig & o & Hdst & Happ & Ho & Hf & Hx)].
    + apply list_elem_of_fmap in Hx as ([dst mig] & -> & Hin).
      by destruct (migrations_at _ _ _ _ _ _ _ dst mig Hg Hin Happ).
    + destruct (migrations_at _ _ _ _ _ _ _ dst mig Hg Hdst Happ) as [_ He].
      specialize (He o x Ho Hf Hx).
      by apply (build_graph_ok _ _ _ _ _ Hg) in He as [? _].
Qed.

(** ** The lines of the GraphViz file *)

Lemma elem_of_sorted l x : x ∈ sorted l ↔ x ∈ l.
Proof. unfold sorted. by rewrite merge_sort_Permutation. Qed.

Lemma elem_of_sorted_items m s ds : (s, ds) ∈ sorted_items m ↔ m !! s = Some ds.
Proof.
  unfold sorted_items. rewrite merge_sort_Permutation.
  apply elem_of_map_to_list.
Qed.

Section lines.
Context (hide : bool) (st : Loaded) (g : Graph).

Lemma elem_of_node_lines l :
  l ∈ node_lines hide st g ↔
  ∃ x, l = Node x (node_color (replaced_nodes st) (edges g) x) (node_label st x) ∧
       x ∈ all_nodes g ∧ hidden (replaced_nodes st) hide x = false.
Proof.
  unfold node_lines. rewrite list_elem_of_fmap. split.
  - intros (x & -> & [Hh Hx]%list_elem_of_filter). exists x.
    by rewrite elem_of_sorted, elem_of_elements in Hx.
  - intros (x & -> & Hx & Hh). exists x. split; [done|].
    apply list_elem_of_filter. by rewrite elem_of_sorted, elem_of_elements.
Qed.

Lemma elem_of_replaced_lines l :
  l ∈ replaced_lines hide st ↔
  hide = false ∧ ∃ s d, l = Edge s d ∧ (s, d) ∈ replaced_nodes st.
Proof.
  unfold replaced_lines. destruct hide.
  - split; [by intros ?%elem_of_nil | by intros [? _]].
  - rewrite list_elem_of_fmap. split.
    + intros ([s d] & -> & Hin). split; [done|]. by exists s, d.
    + intros (_ & s & d & -> & Hin). by exists (s, d).
Qed.

Lemma elem_of_edge_lines l :
  l ∈ edge_lines hide st g ↔
  ∃ s d, l = Edge s d ∧ has_edge g s d ∧
    hidden (replaced_nodes st) hide s = false ∧
    hidden (replaced_nodes st) hide d = false.
Proof.
  unfold edge_lines. rewrite list_elem_of_bind. split.
  - intros ([s ds] & Hl & Hitem%elem_of_sorted_items). simpl in Hl.
    destruct (hidden (replaced_nodes st) hide s) eqn:Hs;
      [by apply elem_of_nil in Hl|].
    apply list_elem_of_bind in Hl as (d & Hl & Hd).
    destruct (hidden (replaced_nodes st) hide d) eqn:Hd';
      [by apply elem_of_nil in Hl|].
    apply list_elem_of_singleton in Hl as ->. exists s, d.
    split_and!; [done| |done..]. unfold has_edge. rewrite Hitem. simpl.
    by rewrite elem_of_sorted, elem_of_elements in Hd.
  - intros (s & d & -> & Hsd & Hs & Hd). unfold has_edge in Hsd.
    destruct (edges g !! s) as [ds|] eqn:Hitem; simpl in Hsd; [|set_solver].
    exists (s, ds). split; [|by apply elem_of_sorted_items].
    simpl. rewrite Hs. apply list_elem_of_bind. exists d.
    rewrite Hd. split; [by apply list_elem_of_singleton|].
    by rewrite elem_of_sorted, elem_of_elements.
Qed.

Lemma has_node_lines x :
  has_node (graph_lines hide st g) x = true ↔
  x ∈ all_nodes g ∧ hidden (replaced_nodes st) hide x = false.
Proof.
  unfold has_node. rewrite existsb_exists. split.
  - intros (l & Hl%list_elem_of_In & Hx). destruct l as [y c lbl|]; [|done].
    apply bool_decide_eq_true in Hx as ->. unfold graph_lines in Hl.
    rewrite !elem_of_app in Hl. destruct Hl as [Hl|[Hl|Hl]].
    + apply elem_of_node_lines in Hl as (y & [= -> _ _] & ? & ?). done.
    + by apply elem_of_replaced_lines in Hl as (_ & ? & ? & ? & _).
    + by apply elem_of_edge_lines in Hl as (? & ? & ? & _).
  - intros [Hx Hh].
    exists (Node x (node_color (replaced_nodes st) (edges g) x)
                   (node_label st x)).
    split; [|by apply bool_decide_eq_true]. apply list_elem_of_In.
    unfold graph_lines. rewrite elem_of_app. left.
    apply elem_of_node_lines. by exists x.
Qed.
End lines.

(** C2, as stated, fails: once the file of a squashed migration has been
    removed, and with the squashed nodes shown, the edge from the squashed
    migration to the squashing one is written but no node line is. *)
Lemma replaced_edge_dangles :
  ∃ g, build_graph 1 ["app"] false (read_migrations ["app"] cleaned_listing)
       = Some g ∧
    graph_lines false (read_migrations ["app"] cleaned_listing) g
    = [ Node ("app", "0002_squashed") blue "app:0002_squashed (squash)";
        Node ("app", "0003") blue "app:0003";
        Edge ("app", "0001") ("app", "0002_squashed");
        Edge ("app", "0002_squashed") ("app", "0003") ] ∧
    no_dangling
      (graph_lines false (read_migrations ["app"] cleaned_listing) g)
    = false.
Proof.
  eexists. split; [vm_compute; reflexivity|].
  split; vm_compute; reflexivity.
Qed.

Lemma follow_agree fuel1 fuel2 rn hide src r1 r2 :
  follow fuel1 rn hide src = Some r1 → follow fuel2 rn hide src = Some r2 →
  r1 = r2.
Proof.
  intros H1 H2.
  apply (follow_mono _ (fuel1 `max` fuel2)) in H1; [|lia].
  apply (follow_mono _ (fuel1 `max` fuel2)) in H2; [|lia]. congruence.
Qed.

(** A graph that is built has left every loop. *)
Lemma build_graph_followed fuel app_names hide st g dst mig o :
  build_graph fuel app_names hide st = Some g →
  (dst, mig) ∈ migrations st → dst.1 ∈ app_names →
  Tup o ∈ dependencies mig →
  is_Some (follow fuel (replaced_nodes st) hide o).
Proof.
  intros Hg Hdst Happ Ho.
  destruct (follow fuel (replaced_nodes st) hide o) eqn:Hf; [by eexists|].
  rewrite (build_graph_stuck _ _ _ _ _ _ _ Hdst Happ Ho Hf) in Hg. done.
Qed.

Lemma hidden_shown rn x : hidden rn false x = false.
Proof. unfold hidden. apply andb_false_r. Qed.

Lemma hidden_hide rn x : hidden rn true x = od_mem rn x.
Proof. unfold hidden. apply andb_true_r. Qed.

(** With the squashed nodes hidden, no line names a key of
    [replaced_nodes]. *)
Lemma hidden_keys_not_written st g l x :
  l ∈ graph_lines true st g → x ∈ line_ids l →
  od_mem (replaced_nodes st) x = false.
Proof.
  intros Hl Hx. unfold graph_lines in Hl. rewrite !elem_of_app in Hl.
  destruct Hl as [Hl|[Hl|Hl]].
  - apply elem_of_node_lines in Hl as (y & -> & _ & Hy).
    apply list_elem_of_singleton in Hx as ->. by rewrite hidden_hide in Hy.
  - by apply elem_of_replaced_lines in Hl as [? _].
  - apply elem_of_edge_lines in Hl as (s & d & -> & _ & Hs & Hd).
    rewrite hidden_hide in Hs, Hd. simpl in Hx.
    apply elem_of_cons in Hx as [->|Hx]; [done|].
    by apply list_elem_of_singleton in Hx as ->.
Qed.

(** C2 (amended): in the lines written for a graph, both ends of every
    regular edge line and the destination of every edge line from a
    squashed migration to its replacement have a node line; the source of
    such an edge has one exactly when the squashed migration is itself
    loaded or is a dependency of a loaded migration; and when the squashed
    nodes are hidden no key of [replaced_nodes] appears in any line. *)
Theorem rendered_references (app_names : list string) (listing : Listing)
    (hide : bool) (fuel : nat) (g : Graph) :
  build_graph fuel app_names hide (read_migrations app_names listing) = Some g →
  (∀ s d,
     Edge s d ∈ edge_lines hide (read_migrations app_names listing) g →
     has_node (graph_lines hide (read_migrations app_names listing) g) s = true ∧
     has_node (graph_lines hide (read_migrations app_names listing) g) d = true) ∧
  (∀ s d,
     Edge s d ∈ replaced_lines hide (read_migrations app_names listing) →
     has_node (graph_lines hide (read_migrations app_names listing) g) d = true ∧
     (has_node (graph_lines hide (read_migrations app_names listing) g) s = true
      ↔ s ∈ (migrations (read_migrations app_names listing)).*1 ∨
        ∃ dst mig, (dst, mig) ∈ migrations (read_migrations app_names listing) ∧
                   Tup s ∈ dependencies mig)) ∧
  (hide = true →
   ∀ l x, l ∈ graph_lines hide (read_migrations app_names listing) g →
          x ∈ line_ids l →
          od_mem (replaced_nodes (read_migrations app_names listing)) x = false).
Proof.
  pose proof (read_migrations_inv app_names listing) as [_ _ Hkeys Hrep].
  set (st := read_migrations app_names listing) in *.
  intros Hg. split_and!.
  - intros s d (s' & d' & [= <- <-] & Hsd & Hs & Hd)%elem_of_edge_lines.
    apply (build_graph_ok _ _ _ _ _ Hg) in Hsd as [? ?].
    by rewrite !has_node_lines.
  - intros s d (-> & s' & d' & [= <- <-] & Hin)%elem_of_replaced_lines.
    destruct (Hrep _ _ Hin) as [Hs Hd]. rewrite !has_node_lines.
    rewrite !(build_graph_nodes _ _ _ _ _ _ Hg).
    split; [split; [|apply hidden_shown]; left; auto|].
    split.
    + intros [[[? _]|(dst & mig & o & ? & _ & Ho & Hf & _)] _]; [by left|].
      right. exists dst, mig. split; [done|].
      destruct fuel; [done|]. rewrite follow_visible in Hf. congruence.
    + intros Hor. split; [|apply hidden_shown].
      destruct Hor as [?|(dst & mig & Hdst & Ho)]; [left; auto|].
      assert (dst.1 ∈ app_names) as Happ.
      { apply Hkeys, list_elem_of_fmap. by exists (dst, mig). }
      right. exists dst, mig, s. split_and!; [done..| |done].
      destruct (build_graph_followed _ _ _ _ _ _ _ _ Hg Hdst Happ Ho)
        as [r Hr].
      destruct fuel; [done|]. by rewrite follow_visible.
  - intros -> l x. apply hidden_keys_not_written.
Qed.

Lemma rendered_references_witness :
  ∃ g, build_graph 1 ["app"] false (read_migrations ["app"] squash_listing)
       = Some g ∧
    ∀ s d,
      Edge s d ∈ replaced_lines false (read_migrations ["app"] squash_listing) →
      has_node (graph_lines false (read_migrations ["app"] squash_listing) g) d
      = true ∧
      (has_node (graph_lines false (read_migrations ["app"] squash_listing) g) s
       = true
       ↔ s ∈ (migrations (read_migrations ["app"] squash_listing)).*1 ∨
         ∃ dst mig,
           (dst, mig) ∈ migrations (read_migrations ["app"] squash_listing) ∧
           Tup s ∈ dependencies mig).
Proof.
  eexists. split; [vm_compute; reflexivity|].
  refine (proj1 (proj2 (rendered_references ["app"] squash_listing false 1 _ _))).
  vm_compute. reflexivity.
Defined.

(** C4, as stated, fails: [C] may be replaced in turn.  With 0001
    squashed into 0002_squashed, that one into 0003_squashed and that one
    into 0004_squashed, the dependency of 0005 on 0001 is resolved to
    0004_squashed: the only edge written starts from there, not from
    0003_squashed. *)
Lemma chain_goes_on :
  od_get (replaced_nodes (read_migrations ["app"] long_chain_listing))
         ("app", "0001") = Some ("app", "0002_squashed") ∧
  od_get (replaced_nodes (read_migrations ["app"] long_chain_listing))
         ("app", "0002_squashed") = Some ("app", "0003_squashed") ∧
  follow 4 (replaced_nodes (read_migrations ["app"] long_chain_listing)) true
         ("app", "0001") = Some ("app", "0004_squashed") ∧
  ∃ g, build_graph 4 ["app"] true
         (read_migrations ["app"] long_chain_listing) = Some g ∧
    ¬ has_edge g ("app", "0003_squashed") ("app", "0005") ∧
    graph_lines true (read_migrations ["app"] long_chain_listing) g
    = [ Node ("app", "0004_squashed") blue "app:0004_squashed (squash)";
        Node ("app", "0005") blue "app:0005";
        Edge ("app", "0004_squashed") ("app", "0005") ].
Proof.
  split_and!; [vm_compute; reflexivity..|].
  eexists. split; [vm_compute; reflexivity|].
  split; [|vm_compute; reflexivity].
  unfold has_edge. compute_done.
Qed.

(** C4 (amended): with the squashed nodes hidden and the graph built, a
    dependency declared on [A], where [A] is replaced by [B] and [B] by
    [C], itself not replaced, is resolved to [C]: the edge is registered
    from [C], it is the line written for it when the dependent migration
    is itself shown, and no edge line starts from [A] or [B]. *)
Theorem chain_resolved (app_names : list string) (listing : Listing)
    (fuel : nat) (g : Graph) (A B C dst : RecordId) (mig : Migration) :
  od_get (replaced_nodes (read_migrations app_names listing)) A = Some B →
  od_get (replaced_nodes (read_migrations app_names listing)) B = Some C →
  od_get (replaced_nodes (read_migrations app_names listing)) C = None →
  C.1 ∈ app_names →
  (dst, mig) ∈ migrations (read_migrations app_names listing) →
  Tup A ∈ dependencies mig →
  build_graph fuel app_names true (read_migrations app_names listing) = Some g →
  follow fuel (replaced_nodes (read_migrations app_names listing)) true A
  = Some C ∧
  has_edge g C dst ∧
  (od_mem (replaced_nodes (read_migrations app_names listing)) dst = false →
   Edge C dst ∈ graph_lines true (read_migrations app_names listing) g) ∧
  ∀ d, (Edge A d ∉ graph_lines true (read_migrations app_names listing) g) ∧
       (Edge B d ∉ graph_lines true (read_migrations app_names listing) g).
Proof.
  pose proof (read_migrations_inv app_names listing) as [_ _ Hkeys _].
  set (st := read_migrations app_names listing) in *.
  intros HA HB HC HCapp Hdst Hdep Hg.
  assert (dst.1 ∈ app_names) as Happ.
  { apply Hkeys, list_elem_of_fmap. by exists (dst, mig). }
  assert (follow 3 (replaced_nodes st) true A = Some C) as H3.
  { by apply (follow_chain _ A [B; C] C). }
  assert (follow fuel (replaced_nodes st) true A = Some C) as Hf.
  { destruct (build_graph_followed _ _ _ _ _ _ _ _ Hg Hdst Happ Hdep)
      as [r Hr].
    by rewrite Hr, (follow_agree _ _ _ _ _ _ _ Hr H3). }
  assert (has_edge g C dst) as Hedge.
  { by destruct (migrations_at _ _ _ _ _ _ _ dst mig Hg Hdst Happ)
      as [_ He]; apply (He A). }
  assert (od_mem (replaced_nodes st) C = false) as HCm
    by by apply od_mem_false.
  assert (∀ x d, od_mem (replaced_nodes st) x = true →
                 Edge x d ∉ graph_lines true st g) as Hkey.
  { intros x d Hx Hl.
    assert (od_mem (replaced_nodes st) x = false) as Hno; [|congruence].
    apply (hidden_keys_not_written st g _ x Hl). left. }
  split_and!; [done..| |].
  - intros Hd. unfold graph_lines. rewrite !elem_of_app. right. right.
    apply elem_of_edge_lines. exists C, dst. by rewrite !hidden_hide.
  - intros d. split; apply Hkey, od_mem_true; by eexists.
Qed.

Lemma chain_resolved_witness :
  ∃ g, build_graph 3 ["app"] true (read_migrations ["app"] chain_listing)
       = Some g ∧
    follow 3 (replaced_nodes (read_migrations ["app"] chain_listing)) true
           ("app", "0001") = Some ("app", "0003_squashed") ∧
    has_edge g ("app", "0003_squashed") ("app", "0004").
Proof.
  eexists. split; [vm_compute; reflexivity|].
  epose proof (chain_resolved ["app"] chain_listing 3 _
                ("app", "0001") ("app", "0002_squashed")
                ("app", "0003_squashed") ("app", "0004")
                {| dependencies := [Tup ("app", "0001")]; replaces := [] |})
    as Hchain.
  refine (let H := Hchain _ _ _ _ _ _ _ in conj (proj1 H) (proj1 (proj2 H)));
    try (vm_compute; reflexivity); compute_done.
Defined.

(** ** The colour of a node *)

Lemma node_color_red rn edges src :
  node_color rn edges src = red ↔
  od_mem rn src = false ∧
  ∃ dst, dst ∈ default ∅ (edges !! src) ∧ od_mem rn dst = false ∧
         dst.1 ≠ src.1.
Proof.
  unfold node_color, other_app. destruct (od_mem rn src).
  - split; [done | by intros [? _]].
  - case_bool_decide as Hex.
    + split; [intros _ | done]. split; [done|].
      destruct Hex as (dst & ? & ? & ?). by exists dst.
    + split; [done|]. intros [_ (dst & ? & ? & ?)]. destruct Hex.
      by exists dst.
Qed.




(** ** The notices of the construction *)

Lemma elem_of_diagnostics fuel app_names hide st n :
  n ∈ diagnostics fuel app_names hide st ↔
  ∃ dst mig original resolved,
    (dst, mig) ∈ migrations st ∧ dst.1 ∈ app_names ∧
    Tup original ∈ dependencies mig ∧
    follow fuel (replaced_nodes st) hide original = Some resolved ∧
    resolved ≠ original ∧
    n = {| notice_style :=
             if od_mem (replaced_nodes st) dst then ERROR else SUCCESS;
           notice_text :=
             replaced_message original resolved dst
                              (od_mem (replaced_nodes st) dst) |}.
Proof.
  unfold diagnostics. rewrite list_elem_of_bind. split.
  - intros ([dst mig] & Hn & Hin). simpl in Hn.
    case_bool_decide as Happ; [|by apply elem_of_nil in Hn].
    apply list_elem_of_bind in Hn as (dep & Hn & Hdep).
    destruct dep as [o|]; simpl in Hn; [|by apply elem_of_nil in Hn].
    destruct (follow fuel (replaced_nodes st) hide o) as [r|] eqn:Hf;
      [|by apply elem_of_nil in Hn].
    unfold diagnostic in Hn.
    destruct (decide (r = o)) as [->|Hne]; [by apply elem_of_nil in Hn|].
    apply list_elem_of_singleton in Hn as ->. by exists dst, mig, o, r.
  - intros (dst & mig & o & r & Hin & Happ & Hdep & Hf & Hne & ->).
    exists (dst, mig). split; [|done]. simpl.
    rewrite bool_decide_eq_true_2 by done.
    apply list_elem_of_bind. exists (Tup o). split; [|done]. simpl.
    rewrite Hf. unfold diagnostic. rewrite decide_False by done.
    by apply list_elem_of_singleton.
Qed.

(** C9: the notices written while the graph is built are, in order, one
    for every tuple dependency of a loaded migration whose resolved
    migration differs from the declared one, and no other; the notice is
    an error when the dependent migration is a key of [replaced_nodes],
    a success otherwise. *)
Theorem substitution_notices (fuel : nat) (app_names : list string)
    (hide : bool) (st : Loaded) (g : Graph) :
  build_graph fuel app_names hide st = Some g →
  stdout g = diagnostics fuel app_names hide st ∧
  ∀ n, n ∈ stdout g ↔
    ∃ dst mig original resolved,
      (dst, mig) ∈ migrations st ∧ dst.1 ∈ app_names ∧
      Tup original ∈ dependencies mig ∧
      follow fuel (replaced_nodes st) hide original = Some resolved ∧
      resolved ≠ original ∧
      n = {| notice_style :=
               if od_mem (replaced_nodes st) dst then ERROR else SUCCESS;
             notice_text :=
               replaced_message original resolved dst
                                (od_mem (replaced_nodes st) dst) |}.
Proof.
  intros ->%build_graph_stdout. split; [done|].
  intros n. apply elem_of_diagnostics.
Qed.

Lemma substitution_notices_witness :
  ∃ g, build_graph 2 ["app"] true (read_migrations ["app"] squash_listing)
       = Some g ∧
    stdout g = diagnostics 2 ["app"] true (read_migrations ["app"] squash_listing) ∧
    stdout g =
      [ {| notice_style := ERROR;
           notice_text :=
             replaced_message ("app", "0001") ("app", "0003_squashed")
                              ("app", "0002") true |};
        {| notice_style := SUCCESS;
           notice_text :=
             replaced_message ("app", "0002") ("app", "0003_squashed")
                              ("app", "0004") false |} ].
Proof.
  eexists. split; [vm_compute; reflexivity|]. split.
  - refine (proj1 (substitution_notices 2 ["app"] true _ _ _)).
    vm_compute. reflexivity.
  - vm_compute. reflexivity.
Defined.

(** ** Removing the squashed migrations *)

Lemma lookup_foldl_delete (m : gmap string string) (ps : list string) p :
  foldl (λ m p, delete p m) m ps !! p
  = if decide (p ∈ ps) then None else m !! p.
Proof.
  revert m. induction ps as [|q ps IH]; intros m; simpl.
  - destruct (decide (p ∈ [])) as [Hin|_]; [by apply elem_of_nil in Hin|done].
  - rewrite IH.
    destruct (decide (p ∈ ps)) as [Hin|Hnin],
             (decide (p ∈ q :: ps)) as [Hin'|Hnin']; try done.
    + destruct Hnin'. by right.
    + apply elem_of_cons in Hin' as [->|?]; [|done]. apply lookup_delete_eq.
    + apply lookup_delete_ne. intros ->. apply Hnin'. left.
Qed.

Lemma remove_loop st items w :
  NoDup items.*2 →
  (∀ k p, (k, p) ∈ items → is_Some (files w !! p)) →
  for_items (remove_file st) items w
  = ({| files := foldl (λ m p, delete p m) (files w) (squashed_paths st items);
        output := output w ++
          ((λ p, success (p +:+ " deleted")) <$> squashed_paths st items) |},
     None).
Proof.
  revert w. induction items as [|[k p] items IH]; intros w Hnd Hfiles.
  - simpl. rewrite app_nil_r. by destruct w.
  - apply NoDup_cons in Hnd as [Hp Hnd]. simpl. unfold remove_file at 1.
    unfold squashed_paths. rewrite filter_cons. simpl.
    destruct (od_mem (replaced_nodes st) k) eqn:Hk.
    + destruct (Hfiles k p) as [c Hc]; [left|]. rewrite Hc.
      rewrite decide_True by done. rewrite IH; [|done|].
      * simpl. by rewrite <-app_assoc.
      * intros k' p' Hin. simpl. rewrite lookup_delete_ne.
        { apply (Hfiles k'). by right. }
        intros ->. apply Hp, list_elem_of_fmap. by exists (k', p').
    + rewrite decide_False by done. apply IH; [done|].
      intros k' p' Hin. apply (Hfiles k'). by right.
Qed.

Lemma elem_of_squashed_paths st items p :
  p ∈ squashed_paths st items ↔
  ∃ k, (k, p) ∈ items ∧ od_mem (replaced_nodes st) k = true.
Proof.
  unfold squashed_paths. rewrite list_elem_of_fmap. split.
  - intros ([k p'] & -> & [Hk Hin]%list_elem_of_filter). by exists k.
  - intros (k & Hin & Hk). exists (k, p). split; [done|].
    by apply list_elem_of_filter.
Qed.

(** C7: when the loaded migrations have distinct files, all on disk, the
    removal ends without exception; it has removed the file of every
    loaded migration that is a key of [replaced_nodes], has left the file
    of every other loaded migration as it was, and has touched no other
    file. *)
Theorem removal_exact (st : Loaded) (w : World) :
  NoDup (migration_paths st).*2 →
  (∀ k p, (k, p) ∈ migration_paths st → is_Some (files w !! p)) →
  ∃ w', remove_squashed_dependencies st w = (w', None) ∧
    (∀ k p, (k, p) ∈ migration_paths st →
            od_mem (replaced_nodes st) k = true → files w' !! p = None) ∧
    (∀ k p, (k, p) ∈ migration_paths st →
            od_mem (replaced_nodes st) k = false →
            files w' !! p = files w !! p) ∧
    (∀ p, p ∉ (migration_paths st).*2 → files w' !! p = files w !! p).
Proof.
  intros Hnd Hfiles. eexists. split; [by apply remove_loop|]. simpl.
  split_and!.
  - intros k p Hin Hk. rewrite lookup_foldl_delete, decide_True; [done|].
    apply elem_of_squashed_paths. by exists k.
  - intros k p Hin Hk. rewrite lookup_foldl_delete, decide_False; [done|].
    intros (k' & Hin' & Hk')%elem_of_squashed_paths.
    assert (k' = k) as ->; [|congruence].
    apply list_elem_of_lookup in Hin as [i Hi].
    apply list_elem_of_lookup in Hin' as [j Hj].
    assert (i = j) as ->.
    { apply (NoDup_lookup _ _ _ p Hnd); rewrite list_lookup_fmap.
      - by rewrite Hi. - by rewrite Hj. }
    congruence.
  - intros p Hp. rewrite lookup_foldl_delete, decide_False; [done|].
    intros (k & Hin & _)%elem_of_squashed_paths.
    apply Hp, list_elem_of_fmap. by exists (k, p).
Qed.

Lemma removal_exact_witness :
  ∃ w', remove_squashed_dependencies (read_migrations ["app"] squash_listing)
          squash_world = (w', None) ∧
    files w' !! "/srv/app/migrations/0001.py" = None ∧
    files w' !! "/srv/app/migrations/0002.py" = None ∧
    files w' !! "/srv/app/migrations/0003_squashed.py"
      = Some "# 0003_squashed" ∧
    files w' !! "/srv/app/migrations/0004.py" = Some "# 0004".
Proof.
  destruct (removal_exact (read_migrations ["app"] squash_listing)
              squash_world) as (w' & Hrun & Hdel & Hkeep & _).
  - compute_done.
  - assert (Forall (λ item, is_Some (files squash_world !! item.2))
              (migration_paths (read_migrations ["app"] squash_listing)))
      as Hall by compute_done.
    intros k p Hin. by apply (proj1 (Forall_forall _ _) Hall (k, p)).
  - exists w'. split; [done|]. split_and!.
    + apply (Hdel ("app", "0001")); compute_done.
    + apply (Hdel ("app", "0002")); compute_done.
    + rewrite (Hkeep ("app", "0003_squashed")); compute_done.
    + rewrite (Hkeep ("app", "0004")); compute_done.
Defined.

(** ** Rewriting the dependencies *)

(** *** The pattern of line 164 does not compile *)

(** The parser passes over a string of ordinary characters. *)
Lemma parse_plain s rest depth acc b :
  plain s = true →
  (∀ acc' b', parse (Plain b') depth acc' rest = Raises re_error) →
  parse (Plain b) depth acc (s +:+ rest) = Raises re_error.
Proof.
  intros Hs Hrest. revert acc b. induction s as [|c s IH]; intros acc b.
  { apply Hrest. }
  simpl in Hs. apply andb_true_iff in Hs as [Hc%negb_true_iff Hs].
  change (parse (Plain b) depth acc (String c (s +:+ rest)) = Raises re_error).
  assert (is_char c 92 = false ∧ is_char c 91 = false ∧ is_char c 40 = false ∧
          is_char c 41 = false ∧ is_char c 42 = false) as (H1 & H2 & H3 & H4 & H5).
  { unfold special_char in Hc. apply bool_decide_eq_false in Hc.
    unfold is_char. split_and!; apply bool_decide_eq_false; intros Heq;
      apply Hc; rewrite Heq; set_solver. }
  cbn [parse]. rewrite H1, H2, H3, H4, H5, Hc. by apply IH.
Qed.

Lemma pattern_unbalanced src :
  plain_id src = true → parse (Plain false) 0 [] (pattern src) = Raises re_error.
Proof.
  intros [H1 H2]%andb_true_iff. unfold pattern.
  set (set := (OneOf [ascii_of_nat 39; ascii_of_nat 34], false)).
  change (parse (Plain true) 0 [set; (Space, true); (Lit (ascii_of_nat 40), false)]
            (src.1 +:+ quote_class +:+ "\s*,\s*" +:+ quote_class +:+ src.2
               +:+ quote_class +:+ "\s*)") = Raises re_error).
  apply parse_plain; [done|]. intros acc b.
  change (parse (Plain true) 0
            (set :: (Space, true) :: (Lit (ascii_of_nat 44), false)
               :: (Space, true) :: set :: acc)
            (src.2 +:+ quote_class +:+ "\s*)") = Raises re_error).
  apply parse_plain; [done|]. intros acc' b'. reflexivity.
Qed.

(** [re.sub] raises [re.error] on the pattern made for a key without
    special character, whatever the text. *)
Lemma py_re_sub_raises sre src repl s :
  plain_id src = true → py_re_sub sre (pattern src) repl s = inr re_error.
Proof. intros Hsrc. unfold py_re_sub. by rewrite pattern_unbalanced. Qed.

(** *** The loop over the files *)

Lemma for_items_raising_app {K V : Type}
    (body : K → V → World → World * option exn) items1 items2 w :
  for_items_raising body (items1 ++ items2) w
  = match for_items_raising body items1 w with
    | (w1, None) => for_items_raising body items2 w1
    | (w1, Some e) => (w1, Some e)
    end.
Proof.
  revert w. induction items1 as [|[k v] items1 IH]; intros w.
  { simpl. by destruct (for_items_raising body items2 w). }
  simpl. destruct (body k v w) as [w1 [e|]]; [done | apply IH].
Qed.

Section rewriting.
Context (re_sub : string → string → string → string + exn).
Context (decode encode : string → option string).
Context (st : Loaded).

#[local] Abbreviation rn := (replaced_nodes st).
#[local] Abbreviation step := (replace_in_file re_sub decode encode st).

Lemma substitute_other content dep :
  replaced_dep rn dep = false → substitute re_sub rn content dep = inl content.
Proof.
  destruct dep as [src|]; simpl; [|done].
  intros Hsrc%od_mem_false. by rewrite Hsrc.
Qed.

(** Only the tuples that are keys of [replaced_nodes] are substituted. *)
Lemma substitutions_replaced_only content deps :
  substitutions re_sub rn content deps
  = substitutions re_sub rn content
      (filter (λ dep, replaced_dep rn dep = true) deps).
Proof.
  revert content. induction deps as [|dep deps IH]; intros content; [done|].
  rewrite filter_cons. destruct (replaced_dep rn dep) eqn:Hdep.
  - rewrite decide_True by done. simpl.
    destruct (substitute re_sub rn content dep); [apply IH | done].
  - rewrite decide_False by done. simpl.
    rewrite substitute_other by done. apply IH.
Qed.

Lemma substitutions_none content deps :
  Forall (λ dep, replaced_dep rn dep = false) deps →
  substitutions re_sub rn content deps = inl content.
Proof.
  induction 1 as [|dep deps Hdep _ IH]; [done|].
  simpl. by rewrite substitute_other.
Qed.

(** An iteration that completes. *)
Lemma replace_in_file_None k p w w' :
  step k p w = (w', None) →
  ∃ mig bytes content content' bytes',
    od_get (migrations st) k = Some mig ∧ files w !! p = Some bytes ∧
    decode bytes = Some content ∧
    substitutions re_sub rn content (dependencies mig) = inl content' ∧
    encode content' = Some bytes' ∧
    files w' = <[p := bytes']> (files w) ∧
    output w' = output w ++ [success (p +:+ " updated")].
Proof.
  unfold replace_in_file.
  destruct (od_get (migrations st) k) as [mig|]; [|done].
  destruct (files w !! p) as [bytes|]; [|done].
  destruct (decode bytes) as [content|] eqn:Hd; [|done].
  destruct (substitutions _ _ content _) as [content'|] eqn:Hsub; [|done].
  destruct (encode content') as [bytes'|] eqn:He; [|done].
  intros [= <-]. by exists mig, bytes, content, content', bytes'.
Qed.

(** An iteration that raises has touched nothing, or has left its file
    empty for want of an encoding of the new text. *)
Lemma replace_in_file_Some k p w w' e :
  step k p w = (w', Some e) →
  w' = w ∨
  e = UnicodeEncodeError ∧ output w' = output w ∧ is_Some (files w !! p) ∧
  files w' = <[p := EmptyString]> (files w).
Proof.
  unfold replace_in_file.
  destruct (od_get (migrations st) k) as [mig|]; [|intros [= <- _]; by left].
  destruct (files w !! p) as [bytes|] eqn:Hb; [|intros [= <- _]; by left].
  destruct (decode bytes) as [content|]; [|intros [= <- _]; by left].
  destruct (substitutions _ _ content _) as [content'|];
    [|intros [= <- _]; by left].
  destruct (encode content') as [bytes'|]; [done|].
  intros [= <- <-]. right. split_and!; [done..|by eexists|done].
Qed.

(** What the loop has done when it stops. *)
Lemma replace_loop items w :
  NoDup items.*2 →
  ∃ done rest,
    items = done ++ rest ∧
    ((for_items_raising step items w).2 = None ↔ rest = []) ∧
    output (for_items_raising step items w).1
    = output w ++ ((λ item, success (item.2 +:+ " updated")) <$> done) ∧
    (∀ k p, (k, p) ∈ done →
       ∃ mig bytes content content',
         od_get (migrations st) k = Some mig ∧
         files w !! p = Some bytes ∧ decode bytes = Some content ∧
         substitutions re_sub rn content (dependencies mig) = inl content' ∧
         is_Some (encode content') ∧
         files (for_items_raising step items w).1 !! p = encode content') ∧
    (∀ p, p ∉ done.*2 →
       files (for_items_raising step items w).1 !! p = files w !! p ∨
       (∃ k, head rest = Some (k, p)) ∧
       (for_items_raising step items w).2 = Some UnicodeEncodeError ∧
       files (for_items_raising step items w).1 !! p = Some EmptyString).
Proof.
  revert w. induction items as [|[k p] items IH]; intros w Hnd.
  { exists [], []. simpl. rewrite app_nil_r. split_and!; [done..| |].
    - by intros k p ?%elem_of_nil.
    - intros p _. by left. }
  rewrite fmap_cons in Hnd. apply NoDup_cons in Hnd as [Hp Hnd]. simpl in Hp.
  simpl. destruct (step k p w) as [w1 [e|]] eqn:Hstep.
  - exists [], ((k, p) :: items). simpl. rewrite app_nil_r.
    apply replace_in_file_Some in Hstep as Hw.
    split_and!; [done|by split| | |].
    + by destruct Hw as [->|(_ & -> & _)].
    + by intros k' p' ?%elem_of_nil.
    + intros q _. destruct Hw as [->|(-> & _ & _ & Hf)]; [by left|].
      destruct (decide (q = p)) as [->|Hq].
      * right. split_and!; [by exists k | done |].
        by rewrite Hf, lookup_insert_eq.
      * left. rewrite Hf. by apply lookup_insert_ne.
  - apply replace_in_file_None in Hstep
      as (mig & bytes & content & content' & bytes' & Hmig & Hb & Hd & Hs
          & He & Hf & Ho).
    destruct (IH w1 Hnd) as (done & rest & -> & Hend & Hout & Hdone & Hother).
    assert ((p ∉ done.*2) ∧ (∀ k', head rest ≠ Some (k', p))) as [Hpd Hpr].
    { rewrite fmap_app in Hp. apply not_elem_of_app in Hp as [? Hp].
      split; [done|]. intros k' Hh. apply Hp.
      destruct rest as [|[k2 p2] rest]; [done|]. injection Hh as -> ->.
      rewrite fmap_cons. left. }
    exists ((k, p) :: done), rest. split_and!; [done..| | |].
    + rewrite Hout, Ho, fmap_cons. simpl. by rewrite <-app_assoc.
    + intros k0 p0 [[= -> ->]|Hin]%elem_of_cons.
      * exists mig, bytes, content, content'.
        split_and!; [done..|by rewrite He|].
        destruct (Hother p Hpd) as [->|([k' Hk'] & _)]; [|by destruct (Hpr k')].
        by rewrite Hf, lookup_insert_eq, He.
      * destruct (Hdone k0 p0 Hin)
          as (mig0 & bytes0 & content0 & content0' & ? & Hb0 & ? & ? & ? & ?).
        exists mig0, bytes0, content0, content0'. split_and!; [done| |done..].
        rewrite Hf, lookup_insert_ne in Hb0; [done|]. intros <-.
        apply Hpd, list_elem_of_fmap. by exists (k0, p).
    + intros q Hq. rewrite fmap_cons in Hq.
      apply not_elem_of_cons in Hq as [Hqp Hq]. simpl in Hqp.
      destruct (Hother q Hq) as [Hsame|?]; [|by right].
      left. rewrite Hsame, Hf. by apply lookup_insert_ne.
Qed.
End rewriting.

(** C6, as stated, fails: the file of a replaced migration is read and
    written back like the others, and reported as updated; its line ends
    are not what they were. *)
Lemma replaced_migration_rewritten :
  od_mem (replaced_nodes (read_migrations ["app"] unreferenced_listing))
         ("app", "0001") = true ∧
  files crlf_world !! "/srv/app/migrations/0001.py" = Some ("# 0001" +:+ crlf) ∧
  ascii_rewrite (read_migrations ["app"] unreferenced_listing) crlf_world
  = ({| files := <["/srv/app/migrations/0001.py" := "# 0001" +:+ nl]>
                   (files crlf_world);
        output := [ success "/srv/app/migrations/0001.py updated";
                    success "/srv/app/migrations/0002_squashed.py updated";
                    success "/srv/app/migrations/0003.py updated" ] |},
     None).
Proof. split_and!; vm_compute; reflexivity. Qed.

(** C6 (amended): the rewriting visits the loaded migrations in the
    order of loading, replaced or not, until an exception stops it.  The
    file of a migration that it has visited holds the text that was read
    from it, after the substitution of those of the dependencies of the
    migration that are tuples and keys of [replaced_nodes], and of no
    other, in the order of their declaration: with no such dependency the
    text is written back as it was read.  Each of these migrations is
    reported as updated.  No other file is changed, except that the file of
    the migration on which the rewriting stops is left empty when its new
    text cannot be encoded. *)
Theorem rewrite_frame (re_sub : string → string → string → string + exn)
    (decode encode : string → option string) (st : Loaded) (w : World) :
  NoDup (migration_paths st).*2 →
  ∃ done rest,
    migration_paths st = done ++ rest ∧
    ((replace_squashed_dependencies re_sub decode encode st w).2 = None
     ↔ rest = []) ∧
    output (replace_squashed_dependencies re_sub decode encode st w).1
    = output w ++ ((λ item, success (item.2 +:+ " updated")) <$> done) ∧
    (∀ k p, (k, p) ∈ done →
       ∃ mig bytes content content',
         od_get (migrations st) k = Some mig ∧
         files w !! p = Some bytes ∧ decode bytes = Some content ∧
         substitutions re_sub (replaced_nodes st) content
           (filter (λ dep, replaced_dep (replaced_nodes st) dep = true)
                   (dependencies mig)) = inl content' ∧
         is_Some (encode content') ∧
         files (replace_squashed_dependencies re_sub decode encode st w).1 !! p
         = encode content') ∧
    (∀ p, p ∉ done.*2 →
       files (replace_squashed_dependencies re_sub decode encode st w).1 !! p
       = files w !! p ∨
       (∃ k, head rest = Some (k, p)) ∧
       (replace_squashed_dependencies re_sub decode encode st w).2
       = Some UnicodeEncodeError ∧
       files (replace_squashed_dependencies re_sub decode encode st w).1 !! p
       = Some EmptyString).
Proof.
  intros Hnd. unfold replace_squashed_dependencies.
  destruct (replace_loop re_sub decode encode st (migration_paths st) w Hnd)
    as (done & rest & Hitems & Hend & Hout & Hdone & Hother).
  exists done, rest. split_and!; [done..| |done].
  intros k p Hin.
  destruct (Hdone k p Hin)
    as (mig & bytes & content & content' & ? & ? & ? & Hsub & ? & ?).
  exists mig, bytes, content, content'. split_and!; [done..| |done|done].
  by rewrite <-substitutions_replaced_only.
Qed.

Lemma rewrite_frame_witness :
  ∃ done rest,
    migration_paths (read_migrations ["app"] paren_listing) = done ++ rest ∧
    ((ascii_rewrite (read_migrations ["app"] paren_listing) paren_world).2
     = None ↔ rest = []) ∧
    output (ascii_rewrite (read_migrations ["app"] paren_listing)
              paren_world).1
    = output paren_world ++
      ((λ item, success (item.2 +:+ " updated")) <$> done) ∧
    (∀ k p, (k, p) ∈ done →
       ∃ mig bytes content content',
         od_get (migrations (read_migrations ["app"] paren_listing)) k
         = Some mig ∧
         files paren_world !! p = Some bytes ∧
         ascii_decode bytes = Some content ∧
         substitutions (py_re_sub no_sre)
           (replaced_nodes (read_migrations ["app"] paren_listing)) content
           (filter (λ dep, replaced_dep
                             (replaced_nodes
                                (read_migrations ["app"] paren_listing)) dep
                           = true)
                   (dependencies mig)) = inl content' ∧
         is_Some (ascii_encode content') ∧
         files (ascii_rewrite (read_migrations ["app"] paren_listing)
                  paren_world).1 !! p
         = ascii_encode content') ∧
    (∀ p, p ∉ done.*2 →
       files (ascii_rewrite (read_migrations ["app"] paren_listing)
                paren_world).1 !! p
       = files paren_world !! p ∨
       (∃ k, head rest = Some (k, p)) ∧
       (ascii_rewrite (read_migrations ["app"] paren_listing) paren_world).2
       = Some UnicodeEncodeError ∧
       files (ascii_rewrite (read_migrations ["app"] paren_listing)
                paren_world).1 !! p
       = Some EmptyString).
Proof.
  apply (rewrite_frame (py_re_sub no_sre) ascii_decode ascii_encode
           (read_migrations ["app"] paren_listing) paren_world).
  compute_done.
Defined.

(** *** Text mode with the ASCII encoding *)

Lemma universal_newlines_other c s :
  is_char c 13 = false →
  universal_newlines (String c s) = String c (universal_newlines s).
Proof. intros Hc. simpl. by rewrite Hc. Qed.

Lemma universal_newlines_cr c s :
  is_char c 13 = true →
  universal_newlines (String c s)
  = match s with
    | String c' _ =>
        if is_char c' 10 then universal_newlines s
        else String (ascii_of_nat 10) (universal_newlines s)
    | EmptyString => String (ascii_of_nat 10) EmptyString
    end.
Proof. intros Hc. destruct s; simpl; by rewrite Hc. Qed.

Lemma universal_newlines_ascii s :
  ascii_only s = true → ascii_only (universal_newlines s) = true.
Proof.
  induction s as [|c s IH]; [done|].
  intros [Hc Hs]%andb_true_iff. specialize (IH Hs).
  destruct (is_char c 13) eqn:Hcr.
  - rewrite universal_newlines_cr by done.
    destruct s as [|c' s']; [done|]. destruct (is_char c' 10); [done|].
    change (ascii_only (universal_newlines (String c' s')) = true). done.
  - rewrite universal_newlines_other by done.
    change (ascii_only (String c (universal_newlines s)))
      with ((nat_of_ascii c <? 128) && ascii_only (universal_newlines s)).
    by rewrite Hc, IH.
Qed.

(** A text that has been read has no carriage return left: read again,
    it is the same. *)
Lemma universal_newlines_idemp s :
  universal_newlines (universal_newlines s) = universal_newlines s.
Proof.
  induction s as [|c s IH]; [done|].
  destruct (is_char c 13) eqn:Hc.
  - rewrite universal_newlines_cr by done.
    destruct s as [|c' s']; [done|]. destruct (is_char c' 10) eqn:Hc'; [done|].
    rewrite (universal_newlines_other (ascii_of_nat 10)) by done.
    by rewrite IH.
  - rewrite universal_newlines_other by done.
    rewrite universal_newlines_other by done. by rewrite IH.
Qed.

(** What has been read can be written, and is read back as it was. *)
Lemma ascii_text_mode bytes text :
  ascii_decode bytes = Some text →
  ∃ bytes', ascii_encode text = Some bytes' ∧ ascii_decode bytes' = Some text.
Proof.
  unfold ascii_decode, ascii_encode.
  destruct (ascii_only bytes) eqn:Hb; [|done]. intros [= <-].
  rewrite universal_newlines_ascii by done. eexists. split; [done|].
  by rewrite universal_newlines_ascii, universal_newlines_idemp.
Qed.

(** *** With keys without special character no text is substituted *)

Section rewriting_plain.
Context (sre : string → string → string → string + exn).
Context (decode encode : string → option string) (st : Loaded).
Context (Hplain : ∀ k, od_mem (replaced_nodes st) k = true →
                       plain_id k = true).

#[local] Abbreviation rn := (replaced_nodes st).
#[local] Abbreviation step :=
  (replace_in_file (py_re_sub sre) decode encode st).
#[local] Abbreviation loop :=
  (for_items_raising (replace_in_file (py_re_sub sre) decode encode st)).

(** The substitutions raise on the first dependency that is a key of
    [replaced_nodes], and leave the text as it is when there is none. *)
Lemma substitutions_plain content deps :
  substitutions (py_re_sub sre) rn content deps
  = if existsb (replaced_dep rn) deps then inr re_error else inl content.
Proof.
  induction deps as [|dep deps IH]; [done|]. simpl.
  destruct (replaced_dep rn dep) eqn:Hdep; simpl.
  - destruct dep as [src|]; [|done]. simpl in *. unfold od_mem in Hdep.
    destruct (od_get rn src) as [dst|] eqn:Hsrc; [|done].
    rewrite py_re_sub_raises; [done|]. apply Hplain. unfold od_mem.
    by rewrite Hsrc.
  - by rewrite substitute_other.
Qed.

Context (Htext : ∀ bytes text, decode bytes = Some text →
                 ∃ bytes', encode text = Some bytes' ∧
                           decode bytes' = Some text).

(** An iteration that raises has touched nothing. *)
Lemma step_raises k p w w' e : step k p w = (w', Some e) → w' = w.
Proof.
  unfold replace_in_file.
  destruct (od_get (migrations st) k) as [mig|]; [|by intros [= <- _]].
  destruct (files w !! p) as [bytes|]; [|by intros [= <- _]].
  destruct (decode bytes) as [content|] eqn:Hd; [|by intros [= <- _]].
  rewrite substitutions_plain.
  destruct (existsb _ _); [by intros [= <- _]|].
  destruct (Htext _ _ Hd) as (bytes' & -> & _). done.
Qed.

(** An iteration that completes has written its file back as it was
    read. *)
Lemma step_completes k p w w' :
  step k p w = (w', None) →
  ∃ mig bytes content bytes',
    od_get (migrations st) k = Some mig ∧
    existsb (replaced_dep rn) (dependencies mig) = false ∧
    files w !! p = Some bytes ∧ decode bytes = Some content ∧
    encode content = Some bytes' ∧ decode bytes' = Some content ∧
    files w' = <[p := bytes']> (files w).
Proof.
  intros (mig & bytes & content & content' & bytes' & Hmig & Hb & Hd & Hs
          & He & Hf & _)%replace_in_file_None.
  rewrite substitutions_plain in Hs.
  destruct (existsb _ _) eqn:Hex; [done|]. injection Hs as <-.
  destruct (Htext _ _ Hd) as (bytes2 & He2 & Hd2).
  rewrite He in He2. injection He2 as <-.
  by exists mig, bytes, content, bytes'.
Qed.

#[local] Abbreviation settled := (settled decode encode).

Lemma step_settles k p w w' :
  step k p w = (w', None) →
  settled w' p ∧ ∀ q, settled w q → settled w' q.
Proof.
  intros (mig & bytes & content & bytes' & _ & _ & Hb & Hd & He & Hd' & Hf)
    %step_completes.
  assert (settled w' p) as Hp.
  { exists bytes', content. by rewrite Hf, lookup_insert_eq. }
  split; [done|]. intros q Hq. destruct (decide (q = p)) as [->|Hne]; [done|].
  destruct Hq as (b & c & ? & ? & ?). exists b, c.
  by rewrite Hf, lookup_insert_ne.
Qed.

Lemma loop_settled items w q : settled w q → settled (loop items w).1 q.
Proof.
  revert w. induction items as [|[k p] items IH]; intros w Hq; [done|].
  simpl. destruct (step k p w) as [w1 [e|]] eqn:Hstep.
  - apply step_raises in Hstep as ->. done.
  - apply IH. by apply (step_settles k p w).
Qed.

(** On a settled file an iteration that has completed once completes
    again, and changes nothing. *)
Lemma step_again k p w w' v :
  step k p w = (w', None) → settled v p →
  ∃ v', step k p v = (v', None) ∧ files v' = files v.
Proof.
  intros (mig & _ & _ & _ & Hmig & Hex & _)%step_completes
         (bytes & content & Hb & Hd & He).
  unfold replace_in_file. rewrite Hmig, Hb, Hd, substitutions_plain, Hex, He.
  eexists. split; [done|]. simpl. by apply insert_id.
Qed.

(** What the loop does to the files depends on the files only. *)
Lemma step_files k p w v :
  files v = files w →
  files (step k p v).1 = files (step k p w).1 ∧ (step k p v).2 = (step k p w).2.
Proof.
  intros Hf. unfold replace_in_file. rewrite Hf.
  destruct (od_get (migrations st) k) as [mig|]; [|done].
  destruct (files w !! p) as [bytes|]; [|done].
  destruct (decode bytes) as [content|]; [|done].
  destruct (substitutions _ _ _ _) as [content'|]; [|done].
  by destruct (encode content').
Qed.

Lemma loop_files items w v :
  files v = files w →
  files (loop items v).1 = files (loop items w).1 ∧
  (loop items v).2 = (loop items w).2.
Proof.
  revert w v. induction items as [|[k p] items IH]; intros w v Hf; [done|].
  simpl. destruct (step_files k p w v Hf) as [Hf1 He1].
  destruct (step k p v) as [v1 [e|]], (step k p w) as [w1 [e'|]];
    simpl in *; try done.
  by apply IH.
Qed.

Lemma loop_cons k p items w :
  loop ((k, p) :: items) w
  = match step k p w with
    | (w', None) => loop items w'
    | (w', Some e) => (w', Some e)
    end.
Proof. done. Qed.

Lemma loop_twice items w :
  files (loop items (loop items w).1).1 = files (loop items w).1 ∧
  (loop items (loop items w).1).2 = (loop items w).2.
Proof.
  revert w. induction items as [|[k p] items IH]; intros w; [done|].
  rewrite (loop_cons k p items w).
  destruct (step k p w) as [w1 [e|]] eqn:Hstep.
  - apply step_raises in Hstep as Hw. subst w1.
    cbn [fst snd]. by rewrite loop_cons, Hstep.
  - destruct (step_settles k p w w1 Hstep) as [Hp _].
    apply (loop_settled items) in Hp.
    destruct (step_again k p w w1 _ Hstep Hp) as (v' & Hv & Hf).
    rewrite loop_cons, Hv.
    destruct (loop_files items _ _ Hf) as [-> ->]. apply IH.
Qed.
End rewriting_plain.




(** On the scenario of the squash the rewriting changes the line ends of
    0001 and stops on 0002, the first migration that depends on a
    replaced one: [re.sub] raises, and 0004 is not reached. *)
Lemma rewrite_raises (sre : string → string → string → string + exn) :
  replace_squashed_dependencies (py_re_sub sre) ascii_decode ascii_encode
    (read_migrations ["app"] squash_listing) squash_crlf_world
  = ({| files := <["/srv/app/migrations/0001.py" := "# 0001" +:+ nl]>
                   (files squash_crlf_world);
        output := [ success "/srv/app/migrations/0001.py updated" ] |},
     Some re_error).
Proof. vm_compute. reflexivity. Qed.

(** The scenario of the parenthesis stays within the modelled part of
    [re]: no engine is asked. *)
Lemma paren_rewrite_modelled
    (sre : string → string → string → string + exn) :
  replace_squashed_dependencies (py_re_sub sre) ascii_decode ascii_encode
    (read_migrations ["app"] paren_listing) paren_world
  = ascii_rewrite (read_migrations ["app"] paren_listing) paren_world ∧
  replace_squashed_dependencies (py_re_sub sre) ascii_decode ascii_encode
    (read_migrations ["app"] paren_listing)
    (ascii_rewrite (read_migrations ["app"] paren_listing) paren_world).1
  = ascii_rewrite (read_migrations ["app"] paren_listing)
      (ascii_rewrite (read_migrations ["app"] paren_listing) paren_world).1.
Proof. split; vm_compute; reflexivity. Qed.

(** ** Entries that are not tuples *)

Lemma for_each_ext {A S : Type} (body1 body2 : S → A → option S) l s :
  (∀ s' x, x ∈ l → body1 s' x = body2 s' x) →
  for_each body1 s l = for_each body2 s l.
Proof.
  revert s. induction l as [|x l IH]; intros s Hext; [done|]. simpl.
  rewrite Hext by left. destruct (body2 s x); simpl; [|done].
  apply IH. intros s' y ?. apply Hext. by right.
Qed.

Lemma for_each_fmap {A B S : Type} (body : S → B → option S) (h : A → B) l s :
  for_each body s (h <$> l) = for_each (λ s x, body s (h x)) s l.
Proof.
  revert s. induction l as [|x l IH]; intros s; [done|]. csimpl.
  destruct (body s (h x)); simpl; [apply IH | done].
Qed.

(** A loop skips the elements on which its body does nothing. *)
Lemma for_each_skip {A S : Type} (body : S → A → option S) (keep : A → bool)
    l s :
  (∀ s' x, keep x = false → body s' x = Some s') →
  for_each body s (filter (λ x, keep x = true) l) = for_each body s l.
Proof.
  intros Hskip. revert s. induction l as [|x l IH]; intros s; [done|].
  rewrite filter_cons. destruct (keep x) eqn:Hx.
  - rewrite decide_True by done. simpl.
    destruct (body s x); simpl; [apply IH | done].
  - rewrite decide_False by done. simpl. rewrite Hskip by done. apply IH.
Qed.

Lemma for_items_ext {K V : Type} (body1 body2 : K → V → World → World + exn)
    items w :
  (∀ k v w', body1 k v w' = body2 k v w') →
  for_items body1 items w = for_items body2 items w.
Proof.
  intros Hext. revert w. induction items as [|[k v] items IH]; intros w;
    [done|].
  simpl. rewrite Hext. destruct (body2 k v w); [apply IH | done].
Qed.

Lemma for_items_raising_ext {K V : Type}
    (body1 body2 : K → V → World → World * option exn) items w :
  (∀ k v w', body1 k v w' = body2 k v w') →
  for_items_raising body1 items w = for_items_raising body2 items w.
Proof.
  intros Hext. revert w. induction items as [|[k v] items IH]; intros w;
    [done|].
  simpl. rewrite Hext. destruct (body2 k v w) as [w' [e|]]; [done | apply IH].
Qed.

(** The substitutions pass over the elements that are not tuples. *)
Lemma substitutions_skip re_sub rn content deps :
  substitutions re_sub rn content (filter (λ e, is_tuple e = true) deps)
  = substitutions re_sub rn content deps.
Proof.
  revert content. induction deps as [|dep deps IH]; intros content; [done|].
  rewrite filter_cons. destruct dep as [src|]; simpl; [|apply IH].
  destruct (od_get rn src) as [dst|]; [|apply IH].
  destruct (re_sub _ _ _); [apply IH | done].
Qed.

Lemma od_set_fmap {K V W} `{EqDecision K} (h : V → W) (k : K) (v : V) d :
  od_set k (h v) ((λ item, (item.1, h item.2)) <$> d)
  = (λ item, (item.1, h item.2)) <$> od_set k v d.
Proof.
  induction d as [|[k' v'] d IH]; csimpl; [done|].
  destruct (decide (k = k')); csimpl; [done|]. by rewrite IH.
Qed.

Lemma od_get_fmap {K V W} `{EqDecision K} (h : V → W) (k : K) d :
  od_get ((λ item, (item.1, h item.2)) <$> d) k = h <$> od_get d k.
Proof.
  induction d as [|[k' v'] d IH]; csimpl; [done|].
  by destruct (decide (k = k')).
Qed.

Lemma read_replaced_skip app_names self rn reps :
  foldl (read_replaced app_names self) rn
        (filter (λ e, is_tuple e = true) reps)
  = foldl (read_replaced app_names self) rn reps.
Proof.
  revert rn. induction reps as [|e reps IH]; intros rn; [done|].
  rewrite filter_cons. destruct e as [r|]; simpl; apply IH.
Qed.

Lemma read_file_stripped app_names app_name st st' f :
  stripped st st' →
  stripped (read_file app_names app_name st f)
           (read_file app_names app_name st' (strip_file f)).
Proof.
  intros (Hm & Hp & Hr). split_and!; simpl.
  - by rewrite Hm, od_set_fmap.
  - by rewrite Hp.
  - by rewrite Hr, read_replaced_skip.
Qed.

Lemma read_migrations_stripped app_names listing :
  stripped (read_migrations app_names listing)
           (read_migrations app_names (strip_listing listing)).
Proof.
  unfold read_migrations. generalize app_names at 2 4. intros apps.
  assert (stripped no_migrations no_migrations) as Hst by done.
  revert Hst. generalize no_migrations at 1 3. generalize no_migrations.
  induction apps as [|a apps IH]; intros st' st Hst; [done|].
  simpl. apply IH. unfold read_app, strip_listing.
  generalize (listing a). intros fs. revert st st' Hst.
  induction fs as [|f fs IHf]; intros st st' Hst; [done|].
  csimpl. by apply IHf, read_file_stripped.
Qed.

(** C10: removing from every [dependencies] and [replaces] list the
    elements that are not tuples changes neither [replaced_nodes], nor the
    graph (its edges, its nodes and the notices written while it is
    built), nor what the rewriting and the removal do to the files. *)
Theorem non_tuples_skipped (app_names : list string) (listing : Listing)
    (fuel : nat) (hide : bool)
    (re_sub : string → string → string → string + exn)
    (decode encode : string → option string) (w : World) :
  replaced_nodes (read_migrations app_names (strip_listing listing))
  = replaced_nodes (read_migrations app_names listing) ∧
  build_graph fuel app_names hide
    (read_migrations app_names (strip_listing listing))
  = build_graph fuel app_names hide (read_migrations app_names listing) ∧
  replace_squashed_dependencies re_sub decode encode
    (read_migrations app_names (strip_listing listing)) w
  = replace_squashed_dependencies re_sub decode encode
      (read_migrations app_names listing) w ∧
  remove_squashed_dependencies
    (read_migrations app_names (strip_listing listing)) w
  = remove_squashed_dependencies (read_migrations app_names listing) w.
Proof.
  destruct (read_migrations_stripped app_names listing) as (Hm & Hp & Hr).
  split_and!; [done| | |].
  - unfold build_graph. rewrite Hm, Hr, for_each_fmap.
    apply for_each_ext. intros g [dst mig] _. simpl.
    case_bool_decide; [|done].
    rewrite (for_each_skip _ is_tuple); [done|]. by intros g' [o|] ?.
  - unfold replace_squashed_dependencies. rewrite Hp.
    apply for_items_raising_ext. intros k p w'. unfold replace_in_file.
    rewrite Hm, Hr, od_get_fmap.
    destruct (od_get (migrations (read_migrations app_names listing)) k)
      as [mig|]; simpl; [|done].
    destruct (files w' !! p) as [bytes|]; [|done].
    destruct (decode bytes) as [content|]; [|done].
    by rewrite substitutions_skip.
  - unfold remove_squashed_dependencies. rewrite Hp.
    apply for_items_ext. intros k p w'. unfold remove_file. by rewrite Hr.
Qed.

(** The label of a node is outside this: a [replaces] list that holds
    only a string still makes its migration a squashing one. *)
Lemma non_tuple_squash_label :
  (λ g, graph_lines true (read_migrations ["app"] untyped_listing) g)
    <$> build_graph 1 ["app"] true (read_migrations ["app"] untyped_listing)
  = Some [ Node ("app", "0001") blue "app:0001 (squash)" ] ∧
  (λ g, graph_lines true
          (read_migrations ["app"] (strip_listing untyped_listing)) g)
    <$> build_graph 1 ["app"] true
          (read_migrations ["app"] (strip_listing untyped_listing))
  = Some [ Node ("app", "0001") blue "app:0001" ].
Proof. split; vm_compute; reflexivity. Qed.

(** ** The command as it stands *)

(** With the [app_names] of line 30 nothing is read, whatever is on disk. *)
Lemma no_app_selected (listing : Listing) :
  read_migrations [] listing = no_migrations.
Proof. reflexivity. Qed.

(** The graph is then empty, and no fuel is needed to build it. *)
Lemma empty_graph_text (hide : bool) (listing : Listing) :
  graph_text hide (read_migrations [] listing)
    <$> build_graph 0 [] hide (read_migrations [] listing)
  = Some ("digraph migrations {" +:+ nl +:+ "}" +:+ nl).
Proof. by destruct hide. Qed.

(** * Further properties of the command *)

(** ** The edges of the graph *)

(** Every edge comes from a dependency. *)
Lemma build_graph_edges fuel app_names hide st g s d :
  build_graph fuel app_names hide st = Some g →
  has_edge g s d ↔
  ∃ mig o, (d, mig) ∈ migrations st ∧ d.1 ∈ app_names ∧
    Tup o ∈ dependencies mig ∧
    follow fuel (replaced_nodes st) hide o = Some s ∧ s.1 ∈ app_names.
Proof.
  intros Hg. split.
  - revert s d. revert Hg. unfold build_graph.
    apply (for_each_inv _ (λ g, ∀ s d, has_edge g s d →
      ∃ mig o, (d, mig) ∈ migrations st ∧ d.1 ∈ app_names ∧
        Tup o ∈ dependencies mig ∧
        follow fuel (replaced_nodes st) hide o = Some s ∧ s.1 ∈ app_names)).
    { intros s d. unfold has_edge. simpl. rewrite lookup_empty. set_solver. }
    intros g1 [dst mig] g2 Hin Hg1 Hstep%add_migration_Some.
    case_bool_decide as Happ; [|by subst].
    destruct Hstep as (g3 & Hdeps & He & _ & _). intros s d.
    unfold has_edge. rewrite He. revert s d. revert Hdeps.
    apply (for_each_inv _ (λ g, ∀ s d, has_edge g s d →
      ∃ mig o, (d, mig) ∈ migrations st ∧ d.1 ∈ app_names ∧
        Tup o ∈ dependencies mig ∧
        follow fuel (replaced_nodes st) hide o = Some s ∧ s.1 ∈ app_names));
      [done|].
    intros g4 dep g5 Hdep Hg4 Hstep%add_dependency_Some s d.
    destruct dep as [o|]; [|by subst; apply Hg4].
    destruct Hstep as (src & Hf & _ & Hstep). case_bool_decide as Hsrc.
    + destruct Hstep as [He5 _]. unfold has_edge. rewrite He5, has_edge_add.
      intros [[-> ->]|Hsd]; [by exists mig, o | by apply Hg4].
    + destruct Hstep as [He5 _]. unfold has_edge. rewrite He5. apply Hg4.
  - intros (mig & o & Hd & Happ & Ho & Hf & Hs).
    destruct (migrations_at _ _ _ _ _ _ _ d mig Hg Hd Happ) as [_ He].
    by apply (He o).
Qed.

(** X1: the graph has an edge from [s] to [d] exactly when [d] is a loaded
    migration of a selected application one of whose tuple dependencies is
    resolved to [s], of a selected application too: no edge is invented,
    none is lost, and a dependency on an application that is not selected
    gives none. *)
Theorem edges_exact (fuel : nat) (app_names : list string) (hide : bool)
    (st : Loaded) (g : Graph) (s d : RecordId) :
  build_graph fuel app_names hide st = Some g →
  has_edge g s d ↔
  ∃ mig o, (d, mig) ∈ migrations st ∧ d.1 ∈ app_names ∧
    Tup o ∈ dependencies mig ∧
    follow fuel (replaced_nodes st) hide o = Some s ∧ s.1 ∈ app_names.
Proof. apply build_graph_edges. Qed.

Lemma edges_exact_witness :
  ∃ g, build_graph 2 ["app"] true (read_migrations ["app"] squash_listing)
       = Some g ∧
    (has_edge g ("app", "0003_squashed") ("app", "0004") ↔
     ∃ mig o,
       (("app", "0004"), mig)
         ∈ migrations (read_migrations ["app"] squash_listing) ∧
       ("app", "0004").1 ∈ ["app"] ∧
       Tup o ∈ dependencies mig ∧
       follow 2 (replaced_nodes (read_migrations ["app"] squash_listing)) true o
       = Some ("app", "0003_squashed") ∧
       ("app", "0003_squashed").1 ∈ ["app"]).
Proof.
  eexists. split; [vm_compute; reflexivity|].
  apply (edges_exact 2 ["app"] true). vm_compute. reflexivity.
Defined.

(** The loop gives back the declared dependency exactly when its
    condition fails at once. *)
Lemma follow_same fuel rn hide src :
  follow (S fuel) rn hide src = Some src ↔ hidden rn hide src = false.
Proof.
  split; [apply follow_not_hidden|]. unfold hidden, od_mem. simpl.
  destruct (od_get rn src); [|done]. destruct hide; [done|done].
Qed.

(** X2: a dependency is kept as it is declared exactly when it is not a
    key of [replaced_nodes] or the squashed nodes are shown; a dependency
    on a hidden replaced migration is never kept. *)
Theorem dependency_kept (fuel : nat) (rn : list (RecordId * RecordId))
    (hide : bool) (src : RecordId) :
  follow (S fuel) rn hide src = Some src ↔
  od_get rn src = None ∨ hide = false.
Proof.
  rewrite follow_same. unfold hidden, od_mem.
  destruct (od_get rn src), hide; naive_solver.
Qed.

Lemma diagnostics_shown fuel app_names st :
  diagnostics fuel app_names false st = [].
Proof.
  unfold diagnostics. induction (migrations st) as [|[dst mig] items IH];
    [done|].
  rewrite bind_cons, IH, app_nil_r. simpl. case_bool_decide; [|done].
  induction (dependencies mig) as [|dep deps IHd]; [done|].
  rewrite bind_cons, IHd, app_nil_r. destruct dep as [o|]; [|done]. simpl.
  destruct fuel; [done|]. rewrite follow_visible. unfold diagnostic.
  by rewrite decide_True.
Qed.

(** X3: with the squashed nodes shown nothing is redirected: no notice is
    written, and the edges are the declared tuple dependencies between
    migrations of the selected applications. *)
Theorem shown_not_redirected (fuel : nat) (app_names : list string)
    (st : Loaded) (g : Graph) :
  build_graph fuel app_names false st = Some g →
  stdout g = [] ∧
  ∀ s d, has_edge g s d ↔
    ∃ mig, (d, mig) ∈ migrations st ∧ d.1 ∈ app_names ∧
           Tup s ∈ dependencies mig ∧ s.1 ∈ app_names.
Proof.
  intros Hg. split.
  - by rewrite (build_graph_stdout _ _ _ _ _ Hg), diagnostics_shown.
  - intros s d. rewrite (build_graph_edges _ _ _ _ _ _ _ Hg). split.
    + intros (mig & o & Hd & Happ & Ho & Hf & Hs). exists mig.
      destruct fuel; [done|]. rewrite follow_visible in Hf. by simplify_eq.
    + intros (mig & Hd & Happ & Ho & Hs). exists mig, s.
      split_and!; [done..| |done].
      destruct (build_graph_followed _ _ _ _ _ _ _ _ Hg Hd Happ Ho) as [r Hr].
      destruct fuel; [done|]. by rewrite follow_visible.
Qed.

Lemma shown_not_redirected_witness :
  ∃ g, build_graph 1 ["app"] false (read_migrations ["app"] squash_listing)
       = Some g ∧
    stdout g = [] ∧
    has_edge g ("app", "0002") ("app", "0004").
Proof.
  eexists. split; [vm_compute; reflexivity|].
  epose proof (shown_not_redirected 1 ["app"]
                 (read_migrations ["app"] squash_listing) _ _) as [Hout He].
  split; [exact Hout|]. apply He.
  exists {| dependencies := [Tup ("app", "0002")]; replaces := [] |}.
  split_and!; compute_done.
  Unshelve. vm_compute. reflexivity.
Defined.

(** ** What the reading keeps *)

(** X4: every key of [replaced_nodes] is of a selected application, and
    every value is a migration that has been loaded, with its file, from a
    selected application: a replacement never leads out of the loaded
    set. *)
Theorem replacement_is_loaded (app_names : list string) (listing : Listing)
    (k v : RecordId) :
  od_get (replaced_nodes (read_migrations app_names listing)) k = Some v →
  k.1 ∈ app_names ∧ v.1 ∈ app_names ∧
  is_Some (od_get (migrations (read_migrations app_names listing)) v) ∧
  is_Some (od_get (migration_paths (read_migrations app_names listing)) v).
Proof.
  intros Hk%od_get_Some_elem.
  destruct (read_migrations_inv app_names listing) as [_ Hp Hkeys Hrep].
  destruct (Hrep _ _ Hk) as [? Hv]. split_and!; [done|by apply Hkeys| |].
  - by apply od_mem_true, od_mem_keys.
  - apply od_mem_true, od_mem_keys. by rewrite Hp.
Qed.

Lemma replacement_is_loaded_witness :
  ("app", "0002").1 ∈ ["app"] ∧ ("app", "0003_squashed").1 ∈ ["app"] ∧
  is_Some (od_get (migrations (read_migrations ["app"] squash_listing))
                  ("app", "0003_squashed")) ∧
  is_Some (od_get (migration_paths (read_migrations ["app"] squash_listing))
                  ("app", "0003_squashed")).
Proof.
  apply (replacement_is_loaded ["app"] squash_listing ("app", "0002")).
  vm_compute. reflexivity.
Defined.

(** The migrations that the reading registers. *)
Lemma read_files_keys app_names app_name st fs k :
  k ∈ (migrations (foldl (read_file app_names app_name) st fs)).*1 ↔
  k ∈ (migrations st).*1 ∨ ∃ f, f ∈ fs ∧ k = (app_name, migration_name f).
Proof.
  revert st. induction fs as [|f fs IH]; intros st; simpl.
  - split; [by left|]. intros [?|(f & ?%elem_of_nil & _)]; done.
  - rewrite IH. simpl. rewrite od_set_keys_elem. split.
    + intros [[->|?]|(f' & ? & ->)].
      * right. exists f. split; [left|done].
      * by left.
      * right. exists f'. split; [by right|done].
    + intros [?|(f' & [->|?]%elem_of_cons & ->)].
      * left. by right.
      * left. by left.
      * right. by exists f'.
Qed.

Lemma read_apps_keys app_names listing st apps k :
  k ∈ (migrations (foldl (read_app app_names listing) st apps)).*1 ↔
  k ∈ (migrations st).*1 ∨
  ∃ a f, a ∈ apps ∧ f ∈ listing a ∧ k = (a, migration_name f).
Proof.
  revert st. induction apps as [|a apps IH]; intros st; simpl.
  - split; [by left|]. intros [?|(a & f & ?%elem_of_nil & _)]; done.
  - rewrite IH. unfold read_app. rewrite read_files_keys. split.
    + intros [[?|(f & ? & ->)]|(a' & f & ? & ? & ->)].
      * by left.
      * right. exists a, f. split_and!; [left|done..].
      * right. exists a', f. split_and!; [by right|done..].
    + intros [?|(a' & f & [->|?]%elem_of_cons & ? & ->)].
      * left. by left.
      * left. right. by exists f.
      * right. by exists a', f.
Qed.

(** X5: the loaded migrations are those of the listed files of the
    selected applications, each once whatever the number of times its
    application is selected, and [migration_paths] has the same keys in
    the same order. *)
Theorem loaded_keys (app_names : list string) (listing : Listing) :
  NoDup (migrations (read_migrations app_names listing)).*1 ∧
  (migration_paths (read_migrations app_names listing)).*1
  = (migrations (read_migrations app_names listing)).*1 ∧
  ∀ k, k ∈ (migrations (read_migrations app_names listing)).*1 ↔
       ∃ a f, a ∈ app_names ∧ f ∈ listing a ∧ k = (a, migration_name f).
Proof.
  destruct (read_migrations_inv app_names listing) as [Hnd Hp _ _].
  split_and!; [done..|]. intros k. unfold read_migrations.
  rewrite read_apps_keys. simpl. split; [|by right].
  by intros [?%elem_of_nil|?].
Qed.

(** The set of the squashing migrations. *)
Lemma read_files_squashing app_names app_name st fs k :
  k ∈ squashing_migrations (foldl (read_file app_names app_name) st fs) ↔
  k ∈ squashing_migrations st ∨
  ∃ f, f ∈ fs ∧ k = (app_name, migration_name f) ∧ replaces (migration f) ≠ [].
Proof.
  revert st. induction fs as [|f fs IH]; intros st; simpl.
  - split; [by left|]. intros [?|(f & ?%elem_of_nil & _)]; done.
  - rewrite IH. simpl. split.
    + intros [Hk|(f' & ? & -> & ?)].
      * destruct (replaces (migration f)) eqn:Hr; [by left|].
        apply elem_of_union in Hk as [->%elem_of_singleton|?]; [|by left].
        right. exists f. split_and!; [left|done|]. by rewrite Hr.
      * right. exists f'. split_and!; [by right|done..].
    + intros [?|(f' & [->|?]%elem_of_cons & -> & Hne)].
      * left. destruct (replaces (migration f)); set_solver.
      * left. destruct (replaces (migration f)); [done|set_solver].
      * right. by exists f'.
Qed.

Lemma read_apps_squashing app_names listing st apps k :
  k ∈ squashing_migrations (foldl (read_app app_names listing) st apps) ↔
  k ∈ squashing_migrations st ∨
  ∃ a f, a ∈ apps ∧ f ∈ listing a ∧ k = (a, migration_name f) ∧
         replaces (migration f) ≠ [].
Proof.
  revert st. induction apps as [|a apps IH]; intros st; simpl.
  - split; [by left|]. intros [?|(a & f & ?%elem_of_nil & _)]; done.
  - rewrite IH. unfold read_app. rewrite read_files_squashing. split.
    + intros [[?|(f & ? & -> & ?)]|(a' & f & ? & ? & -> & ?)].
      * by left.
      * right. exists a, f. split_and!; [left|done..].
      * right. exists a', f. split_and!; [by right|done..].
    + intros [?|(a' & f & [->|?]%elem_of_cons & ? & -> & ?)].
      * left. by left.
      * left. right. by exists f.
      * right. by exists a', f.
Qed.

(** X6: a migration is a squashing one, and its node is labelled so,
    exactly when one of the files that define it has a [replaces] list
    that is not empty, whatever this list holds: neither the type of its
    elements nor their application is looked at. *)
Theorem squashing_exact (app_names : list string) (listing : Listing)
    (k : RecordId) :
  k ∈ squashing_migrations (read_migrations app_names listing) ↔
  ∃ a f, a ∈ app_names ∧ f ∈ listing a ∧ k = (a, migration_name f) ∧
         replaces (migration f) ≠ [].
Proof.
  unfold read_migrations. rewrite read_apps_squashing. simpl.
  split; [|by right]. by intros [?%elem_of_empty|?].
Qed.

(** ** The order of the lines *)

Lemma string_ltb_le s1 s2 :
  String.ltb s1 s2 = true ↔ String.le s1 s2 ∧ s1 ≠ s2.
Proof.
  unfold String.le, String.ltb, String.leb.
  destruct (String.compare s1 s2) eqn:Hc; simpl.
  - apply String.compare_eq_iff in Hc. naive_solver.
  - split; [intros _|done]. split; [done|]. intros ->.
    pose proof (String.compare_antisym s2 s2) as Ha. rewrite Hc in Ha. done.
  - split; [done|]. by intros [[] _].
Qed.

(** The order of [sorted] is the lexicographic one. *)
Lemma tuple_le_lexico a b :
  tuple_le a b ↔
  (String.le a.1 b.1 ∧ a.1 ≠ b.1) ∨ (a.1 = b.1 ∧ String.le a.2 b.2).
Proof.
  unfold tuple_le, tuple_leb. rewrite orb_True, andb_True, <-string_ltb_le.
  rewrite Is_true_true, bool_decide_spec. done.
Qed.

Global Instance tuple_le_total : Total tuple_le.
Proof.
  intros a b. rewrite !tuple_le_lexico.
  destruct (decide (a.1 = b.1)) as [Heq|Hne].
  - destruct (total String.le a.2 b.2); [left|right]; right; done.
  - destruct (total String.le a.1 b.1); [left|right]; left; done.
Qed.

Global Instance tuple_le_trans : Transitive tuple_le.
Proof.
  intros a b c. rewrite !tuple_le_lexico.
  intros [[H1 Hn1]|[E1 H1]] [[H2 Hn2]|[E2 H2]].
  - left. split; [by etrans|]. intros Heq. rewrite Heq in H1.
    apply Hn2. by apply (anti_symm String.le).
  - left. by rewrite <-E2.
  - left. by rewrite E1.
  - right. split; [congruence | by etrans].
Qed.

Global Instance tuple_le_antisymm : AntiSymm (=) tuple_le.
Proof.
  intros [a1 a2] [b1 b2]. rewrite !tuple_le_lexico. simpl.
  intros [[H1 Hn1]|[E1 H1]] [[H2 Hn2]|[E2 H2]]; try congruence.
  - destruct Hn1. by apply (anti_symm String.le).
  - subst. f_equal. by apply (anti_symm String.le).
Qed.

Lemma StronglySorted_filter {A} (R : relation A) (P : A → Prop)
    `{∀ x, Decision (P x)} l :
  StronglySorted R l → StronglySorted R (filter P l).
Proof.
  induction l as [|x l IH]; [done|].
  intros [Hx Hl]%StronglySorted_cons. rewrite filter_cons.
  destruct (decide (P x)); [|by apply IH].
  apply StronglySorted_cons. split; [|by apply IH].
  apply Forall_forall. intros y [_ Hy]%list_elem_of_filter.
  by apply (proj1 (Forall_forall _ _) Hx).
Qed.

Lemma sorted_strongly l : StronglySorted tuple_le (sorted l).
Proof. apply StronglySorted_merge_sort; apply _. Qed.

Lemma sorted_NoDup l : NoDup l → NoDup (sorted l).
Proof. unfold sorted. by rewrite merge_sort_Permutation. Qed.

(** X7: the node lines are written in the increasing lexicographic order
    of (application, name), and every node that is not hidden has exactly
    one line. *)
Theorem node_lines_ordered (hide : bool) (st : Loaded) (g : Graph) :
  StronglySorted tuple_le
    ((λ l, hd ("", "") (line_ids l)) <$> node_lines hide st g) ∧
  NoDup ((λ l, hd ("", "") (line_ids l)) <$> node_lines hide st g) ∧
  ∀ x, x ∈ (λ l, hd ("", "") (line_ids l)) <$> node_lines hide st g ↔
       x ∈ all_nodes g ∧ hidden (replaced_nodes st) hide x = false.
Proof.
  assert ((λ l, hd ("", "") (line_ids l)) <$> node_lines hide st g
          = filter (λ src, hidden (replaced_nodes st) hide src = false)
                   (sorted (elements (all_nodes g)))) as ->.
  { unfold node_lines. rewrite <-list_fmap_compose.
    rewrite <-(list_fmap_id (filter _ _)) at 2. by apply list_fmap_ext. }
  split_and!.
  - apply StronglySorted_filter, sorted_strongly.
  - apply NoDup_filter, sorted_NoDup, NoDup_elements.
  - intros x. rewrite list_elem_of_filter, elem_of_sorted, elem_of_elements.
    tauto.
Qed.

Global Instance item_le_total : Total item_le.
Proof. intros a b. apply (total tuple_le). Qed.

Global Instance item_le_trans : Transitive item_le.
Proof. intros a b c. apply (transitivity (R := tuple_le)). Qed.

Lemma strongly_lt l :
  StronglySorted tuple_le l → NoDup l → StronglySorted tuple_lt l.
Proof.
  induction l as [|x l IH]; [constructor|].
  intros [Hx Hl]%StronglySorted_cons [Hnx Hnd]%NoDup_cons.
  apply StronglySorted_cons. split; [|by apply IH].
  apply Forall_forall. intros y Hy. split.
  - by apply (proj1 (Forall_forall _ _) Hx).
  - by intros ->.
Qed.

Lemma sorted_items_strongly m :
  StronglySorted tuple_lt (sorted_items m).*1.
Proof.
  apply strongly_lt.
  - apply (StronglySorted_fmap fst item_le tuple_le); [done|].
    unfold sorted_items. apply StronglySorted_merge_sort; apply _.
  - unfold sorted_items. rewrite merge_sort_Permutation.
    apply NoDup_fst_map_to_list.
Qed.

Section edge_order.
Context (hide : bool) (st : Loaded).

#[local] Abbreviation visible_edges s :=
  (λ dst : RecordId,
     if hidden (replaced_nodes st) hide dst then [] else [Edge s dst]).

Lemma destinations_ordered s dsts :
  StronglySorted tuple_lt dsts →
  StronglySorted edge_lt (dsts ≫= visible_edges s).
Proof.
  induction dsts as [|d dsts IH]; [constructor|].
  intros [Hd Hl]%StronglySorted_cons. rewrite bind_cons.
  apply StronglySorted_app_2; [| |by apply IH].
  - intros l1 l2 Hl1 (d2 & Hl2 & Hd2)%list_elem_of_bind.
    destruct (hidden (replaced_nodes st) hide d); [by apply elem_of_nil in Hl1|].
    destruct (hidden (replaced_nodes st) hide d2); [by apply elem_of_nil in Hl2|].
    apply list_elem_of_singleton in Hl1 as ->.
    apply list_elem_of_singleton in Hl2 as ->.
    right. split; [done|]. by apply (proj1 (Forall_forall _ _) Hd).
  - destruct (hidden (replaced_nodes st) hide d); repeat constructor.
Qed.

Lemma items_ordered (items : list (RecordId * gset RecordId)) :
  StronglySorted tuple_lt items.*1 →
  StronglySorted edge_lt
    (items ≫= λ item,
       if hidden (replaced_nodes st) hide item.1 then []
       else sorted (elements item.2) ≫= visible_edges item.1).
Proof.
  induction items as [|[s ds] items IH]; [constructor|]. csimpl.
  intros [Hs Hl]%StronglySorted_cons.
  apply StronglySorted_app_2; [| |by apply IH].
  - intros l1 l2 Hl1 ([s2 ds2] & Hl2 & Hin)%list_elem_of_bind. simpl in *.
    assert (tuple_lt s s2) as Hlt.
    { apply (proj1 (Forall_forall _ _) Hs), list_elem_of_fmap.
      by exists (s2, ds2). }
    destruct (hidden (replaced_nodes st) hide s); [by apply elem_of_nil in Hl1|].
    destruct (hidden (replaced_nodes st) hide s2); [by apply elem_of_nil in Hl2|].
    apply list_elem_of_bind in Hl1 as (d1 & Hl1 & _).
    apply list_elem_of_bind in Hl2 as (d2 & Hl2 & _).
    destruct (hidden (replaced_nodes st) hide d1); [by apply elem_of_nil in Hl1|].
    destruct (hidden (replaced_nodes st) hide d2); [by apply elem_of_nil in Hl2|].
    apply list_elem_of_singleton in Hl1 as ->.
    apply list_elem_of_singleton in Hl2 as ->. by left.
  - destruct (hidden (replaced_nodes st) hide s); [constructor|].
    apply destinations_ordered, strongly_lt; [apply sorted_strongly|].
    apply sorted_NoDup, NoDup_elements.
Qed.
End edge_order.

Lemma edge_lt_irrefl l : ¬ edge_lt l l.
Proof.
  destruct l as [x c lbl|s d]; simpl; [by intros []|].
  intros [[_ ?]|[_ [_ ?]]]; done.
Qed.

(** X8: the regular edge lines are written in strictly increasing order,
    by source and then by destination, so that no edge is written twice;
    they are the edges of the graph neither end of which is hidden. *)
Theorem edge_lines_ordered (hide : bool) (st : Loaded) (g : Graph) :
  StronglySorted edge_lt (edge_lines hide st g) ∧
  NoDup (edge_lines hide st g) ∧
  ∀ s d, Edge s d ∈ edge_lines hide st g ↔
         has_edge g s d ∧ hidden (replaced_nodes st) hide s = false ∧
         hidden (replaced_nodes st) hide d = false.
Proof.
  assert (StronglySorted edge_lt (edge_lines hide st g)) as Hsorted.
  { apply items_ordered, sorted_items_strongly. }
  split_and!; [done| |].
  - revert Hsorted. generalize (edge_lines hide st g). intros ls.
    induction ls as [|l ls IH]; [constructor|].
    intros [Hl Hls]%StronglySorted_cons. apply NoDup_cons.
    split; [|by apply IH]. intros Hin.
    by apply (edge_lt_irrefl l), (proj1 (Forall_forall _ _) Hl).
  - intros s d. rewrite elem_of_edge_lines. split.
    + by intros (s' & d' & [= <- <-] & ?).
    + intros ?. by exists s, d.
Qed.

(** ** Exceptions in the two loops over the files *)

Lemma for_items_app {K V : Type} (body : K → V → World → World + exn)
    items1 items2 w :
  for_items body (items1 ++ items2) w
  = match for_items body items1 w with
    | (w1, None) => for_items body items2 w1
    | (w1, Some e) => (w1, Some e)
    end.
Proof.
  revert w. induction items1 as [|[k v] items1 IH]; intros w; [done|].
  simpl. destruct (body k v w); [apply IH | done].
Qed.

(** X9: when the file of a replaced migration is missing, the removal
    stops there with [FileNotFoundError]: the files of the replaced
    migrations that come before it stay removed and reported, and nothing
    that comes after it is removed. *)
Theorem removal_stops_at_missing (st : Loaded) (w : World)
    (before after : list (RecordId * string)) (k : RecordId) (p : string) :
  migration_paths st = before ++ (k, p) :: after →
  NoDup before.*2 →
  (∀ k' p', (k', p') ∈ before → is_Some (files w !! p')) →
  od_mem (replaced_nodes st) k = true →
  files w !! p = None →
  remove_squashed_dependencies st w
  = ({| files := foldl (λ m p, delete p m) (files w) (squashed_paths st before);
        output := output w ++
          ((λ p, success (p +:+ " deleted")) <$> squashed_paths st before) |},
     Some (FileNotFoundError p)).
Proof.
  intros Hpaths Hnd Hfiles Hk Hp. unfold remove_squashed_dependencies.
  rewrite Hpaths, for_items_app, remove_loop by done. simpl.
  unfold remove_file. rewrite Hk. simpl.
  rewrite lookup_foldl_delete, Hp. by destruct (decide _).
Qed.

Lemma removal_stops_at_missing_witness :
  remove_squashed_dependencies (read_migrations ["app"] squash_listing)
    {| files := delete "/srv/app/migrations/0002.py" (files squash_world);
       output := [] |}
  = ({| files := delete "/srv/app/migrations/0001.py"
                   (delete "/srv/app/migrations/0002.py" (files squash_world));
        output := [ success "/srv/app/migrations/0001.py deleted" ] |},
     Some (FileNotFoundError "/srv/app/migrations/0002.py")).
Proof.
  rewrite (removal_stops_at_missing (read_migrations ["app"] squash_listing)
             {| files := delete "/srv/app/migrations/0002.py"
                           (files squash_world);
                output := [] |}
             [(("app", "0001"), "/srv/app/migrations/0001.py")]
             [(("app", "0003_squashed"),
               "/srv/app/migrations/0003_squashed.py");
              (("app", "0004"), "/srv/app/migrations/0004.py")]
             ("app", "0002") "/srv/app/migrations/0002.py").
  - vm_compute. reflexivity.
  - vm_compute. reflexivity.
  - compute_done.
  - intros k' p' [= -> ->]%list_elem_of_singleton. compute_done.
  - vm_compute. reflexivity.
  - vm_compute. reflexivity.
Defined.

(** X10: under the hypotheses of C7 the removal writes one notice for
    every file that it removes, in the order of loading, and no other. *)
Theorem removal_reports (st : Loaded) (w : World) :
  NoDup (migration_paths st).*2 →
  (∀ k p, (k, p) ∈ migration_paths st → is_Some (files w !! p)) →
  output (remove_squashed_dependencies st w).1
  = output w ++
    ((λ p, success (p +:+ " deleted"))
       <$> squashed_paths st (migration_paths st)) ∧
  ∀ p, p ∈ squashed_paths st (migration_paths st) ↔
       ∃ k, (k, p) ∈ migration_paths st ∧ od_mem (replaced_nodes st) k = true.
Proof.
  intros Hnd Hfiles. unfold remove_squashed_dependencies.
  rewrite remove_loop by done. split; [done|].
  intros p. apply elem_of_squashed_paths.
Qed.

Lemma removal_reports_witness :
  output (remove_squashed_dependencies
            (read_migrations ["app"] squash_listing) squash_world).1
  = output squash_world ++
    ((λ p, success (p +:+ " deleted"))
       <$> squashed_paths (read_migrations ["app"] squash_listing)
             (migration_paths (read_migrations ["app"] squash_listing))).
Proof.
  refine (proj1 (removal_reports (read_migrations ["app"] squash_listing)
                   squash_world _ _)).
  - compute_done.
  - assert (Forall (λ item, is_Some (files squash_world !! item.2))
              (migration_paths (read_migrations ["app"] squash_listing)))
      as Hall by compute_done.
    intros k p Hin. by apply (proj1 (Forall_forall _ _) Hall (k, p)).
Defined.

(** *** The rewriting with Python's [re] *)

Section rewriting_aborts.
Context (sre : string → string → string → string + exn).
Context (decode encode : string → option string) (st : Loaded).
Context (Hplain : ∀ k, od_mem (replaced_nodes st) k = true →
                       plain_id k = true).

#[local] Abbreviation step :=
  (replace_in_file (py_re_sub sre) decode encode st).
#[local] Abbreviation loop :=
  (for_items_raising (replace_in_file (py_re_sub sre) decode encode st)).

(** The files of migrations without a dependency on a replaced one are
    read and written back, one after the other. *)
Lemma replace_loop_clean items w :
  NoDup items.*2 →
  (∀ k p, (k, p) ∈ items →
     ∃ mig bytes content,
       od_get (migrations st) k = Some mig ∧
       Forall (λ dep, replaced_dep (replaced_nodes st) dep = false)
              (dependencies mig) ∧
       files w !! p = Some bytes ∧ decode bytes = Some content ∧
       is_Some (encode content)) →
  ∃ w', loop items w = (w', None) ∧
    output w' = output w ++
      ((λ item, success (item.2 +:+ " updated")) <$> items) ∧
    (∀ k p bytes content,
       (k, p) ∈ items → files w !! p = Some bytes →
       decode bytes = Some content → files w' !! p = encode content) ∧
    (∀ q, q ∉ items.*2 → files w' !! q = files w !! q).
Proof.
  revert w. induction items as [|[k p] items IH]; intros w Hnd Hitems.
  { exists w. simpl. rewrite app_nil_r. split_and!; [done..| |done].
    by intros k p bytes content ?%elem_of_nil. }
  rewrite fmap_cons in Hnd. apply NoDup_cons in Hnd as [Hp Hnd]. simpl in Hp.
  destruct (Hitems k p) as (mig & bytes & content & Hmig & Hdeps & Hb & Hd
                            & [bytes' He]); [left|].
  simpl. unfold replace_in_file at 1.
  rewrite Hmig, Hb, Hd, substitutions_none, He by done.
  set (w1 := {| files := <[p:=bytes']> (files w);
                output := output w ++ [success (p +:+ " updated")] |}).
  destruct (IH w1 Hnd) as (w' & Hrun & Hout & Hdone & Hother).
  { intros k' p' Hin.
    destruct (Hitems k' p') as (m & b & c & ? & ? & ? & ? & ?); [by right|].
    exists m, b, c. split_and!; [done|done| |done|done]. simpl.
    rewrite lookup_insert_ne; [done|]. intros <-.
    apply Hp, list_elem_of_fmap. by exists (k', p). }
  exists w'. split_and!; [done| | |].
  - rewrite Hout. simpl. by rewrite <-app_assoc.
  - intros k0 p0 b0 c0 [[= -> ->]|Hin]%elem_of_cons Hb0 Hd0.
    + rewrite Hother by done. simpl. rewrite lookup_insert_eq. congruence.
    + apply (Hdone k0 p0 b0 c0); [done| |done]. simpl.
      rewrite lookup_insert_ne; [done|]. intros <-.
      apply Hp, list_elem_of_fmap. by exists (k0, p).
  - intros q [Hqp Hq]%not_elem_of_cons. rewrite Hother by done. simpl.
    by apply lookup_insert_ne.
Qed.

(** With a dependency on a replaced migration the substitutions raise. *)
Lemma substitutions_raise content deps dep :
  dep ∈ deps → replaced_dep (replaced_nodes st) dep = true →
  substitutions (py_re_sub sre) (replaced_nodes st) content deps
  = inr re_error.
Proof.
  intros Hin Hdep. rewrite (substitutions_plain sre st Hplain).
  assert (existsb (replaced_dep (replaced_nodes st)) deps = true) as ->;
    [|done].
  apply existsb_exists. exists dep. split; [|done]. by apply list_elem_of_In.
Qed.

(** The rewriting never completes when a loaded migration depends on a
    replaced one, and it never removes a file. *)
Lemma loop_raises items w k p mig dep :
  (k, p) ∈ items → od_get (migrations st) k = Some mig →
  dep ∈ dependencies mig → replaced_dep (replaced_nodes st) dep = true →
  is_Some (loop items w).2.
Proof.
  intros Hin Hmig Hdep Hrep. revert w.
  induction items as [|[k' p'] items IH]; intros w;
    [by apply elem_of_nil in Hin|].
  simpl. destruct (step k' p' w) as [w1 [e|]] eqn:Hstep; [by eexists|].
  apply elem_of_cons in Hin as [[= <- <-]|Hin]; [|by apply IH].
  apply replace_in_file_None in Hstep
    as (mig' & bytes & content & content' & _ & Hmig' & _ & _ & Hs & _).
  rewrite Hmig in Hmig'. injection Hmig' as <-.
  by rewrite (substitutions_raise _ _ dep) in Hs.
Qed.

Lemma loop_dom items w : dom (files (loop items w).1) = dom (files w).
Proof.
  revert w. induction items as [|[k p] items IH]; intros w; [done|].
  simpl. destruct (step k p w) as [w1 [e|]] eqn:Hstep.
  - apply replace_in_file_Some in Hstep as Hw. simpl.
    destruct Hw as [->|(_ & _ & Hp & ->)]; [done|].
    by apply dom_insert_lookup_L.
  - rewrite IH.
    apply replace_in_file_None in Hstep
      as (mig & bytes & content & content' & bytes' & _ & Hb & _ & _ & _
          & -> & _).
    apply dom_insert_lookup_L. by eexists.
Qed.
End rewriting_aborts.

(** X11: when no key of [replaced_nodes] holds a special character of the
    regular expressions, the rewriting stops with [re.error] on the first
    loaded migration that depends on a replaced one, its file being
    readable: the files of the migrations before it have been read and
    written back, and are reported as updated, no other file is changed,
    and no later migration is reached. *)
Theorem rewrite_aborts (sre : string → string → string → string + exn)
    (decode encode : string → option string) (st : Loaded) (w : World)
    (before after : list (RecordId * string)) (k : RecordId) (p : string)
    (mig : Migration) (bytes content : string) (dep : entry) :
  (∀ k', od_mem (replaced_nodes st) k' = true → plain_id k' = true) →
  NoDup (migration_paths st).*2 →
  migration_paths st = before ++ (k, p) :: after →
  (∀ k' p', (k', p') ∈ before →
     ∃ mig' bytes' content',
       od_get (migrations st) k' = Some mig' ∧
       Forall (λ dep, replaced_dep (replaced_nodes st) dep = false)
              (dependencies mig') ∧
       files w !! p' = Some bytes' ∧ decode bytes' = Some content' ∧
       is_Some (encode content')) →
  od_get (migrations st) k = Some mig →
  files w !! p = Some bytes → decode bytes = Some content →
  dep ∈ dependencies mig → replaced_dep (replaced_nodes st) dep = true →
  ∃ w', replace_squashed_dependencies (py_re_sub sre) decode encode st w
        = (w', Some re_error) ∧
    output w' = output w ++
      ((λ item, success (item.2 +:+ " updated")) <$> before) ∧
    (∀ k' p' bytes' content',
       (k', p') ∈ before → files w !! p' = Some bytes' →
       decode bytes' = Some content' → files w' !! p' = encode content') ∧
    (∀ q, q ∉ before.*2 → files w' !! q = files w !! q).
Proof.
  intros Hplain Hnd Hpaths Hbefore Hmig Hb Hd Hin Hdep.
  rewrite Hpaths, fmap_app in Hnd.
  apply NoDup_app in Hnd as (Hnd1 & Hdisj & _).
  destruct (replace_loop_clean sre decode encode st before w Hnd1 Hbefore)
    as (w1 & Hrun & Hout & Hdone & Hother).
  exists w1. split; [|done].
  unfold replace_squashed_dependencies.
  rewrite Hpaths, for_items_raising_app, Hrun. simpl.
  unfold replace_in_file. rewrite Hmig, Hother, Hb, Hd.
  - by rewrite (substitutions_raise sre st Hplain _ _ dep).
  - intros Hp. apply (Hdisj p Hp). rewrite fmap_cons. left.
Qed.

Lemma rewrite_aborts_witness :
  ∃ w', ascii_rewrite (read_migrations ["app"] squash_listing)
          squash_crlf_world
        = (w', Some re_error) ∧
    output w' = output squash_crlf_world ++
      ((λ item, success (item.2 +:+ " updated"))
         <$> [(("app", "0001"), "/srv/app/migrations/0001.py")]) ∧
    (∀ k' p' bytes' content',
       (k', p') ∈ [(("app", "0001"), "/srv/app/migrations/0001.py")] →
       files squash_crlf_world !! p' = Some bytes' →
       ascii_decode bytes' = Some content' →
       files w' !! p' = ascii_encode content') ∧
    (∀ q, q ∉ [(("app", "0001"), "/srv/app/migrations/0001.py")].*2 →
          files w' !! q = files squash_crlf_world !! q).
Proof.
  apply (rewrite_aborts no_sre ascii_decode ascii_encode
           (read_migrations ["app"] squash_listing) squash_crlf_world
           [(("app", "0001"), "/srv/app/migrations/0001.py")]
           [(("app", "0003_squashed"), "/srv/app/migrations/0003_squashed.py");
            (("app", "0004"), "/srv/app/migrations/0004.py")]
           ("app", "0002") "/srv/app/migrations/0002.py"
           {| dependencies := [Tup ("app", "0001")]; replaces := [] |}
           "# 0002" "# 0002" (Tup ("app", "0001"))).
  - assert (Forall (λ k, plain_id k = true)
              (replaced_nodes (read_migrations ["app"] squash_listing)).*1)
      as Hall by compute_done.
    intros k Hk%od_mem_keys. by apply (proj1 (Forall_forall _ _) Hall k).
  - compute_done.
  - vm_compute. reflexivity.
  - intros k' p' [= -> ->]%list_elem_of_singleton.
    exists {| dependencies := []; replaces := [] |},
           ("# 0001" +:+ crlf), ("# 0001" +:+ nl).
    split_and!; [vm_compute; reflexivity | constructor | compute_done
                | vm_compute; reflexivity | compute_done].
  - vm_compute. reflexivity.
  - compute_done.
  - vm_compute. reflexivity.
  - left.
  - vm_compute. reflexivity.
Defined.

(** ** The output file *)

Lemma rsplit_dot_None s : rsplit_dot s = None ↔ dotless s = true.
Proof.
  induction s as [|c s IH]; simpl; [done|].
  destruct (rsplit_dot s) as [[base ext]|].
  - split; [done|]. intros [_ Hs]%andb_true_iff.
    by apply IH in Hs.
  - case_bool_decide; simpl; [done|]. by rewrite <-IH.
Qed.

(** What [rpartition] finds is the last dot. *)
Lemma rsplit_dot_sound s base ext :
  rsplit_dot s = Some (base, ext) →
  s = base +:+ "." +:+ ext ∧ dotless ext = true.
Proof.
  revert base ext. induction s as [|c s IH]; intros base ext; simpl; [done|].
  destruct (rsplit_dot s) as [[base' ext']|] eqn:Hs.
  - intros [= <- <-]. destruct (IH base' ext' eq_refl) as [-> Hext]. done.
  - case_bool_decide as Hc; [|done]. intros [= <- <-]. subst c.
    split; [done|]. by apply rsplit_dot_None.
Qed.

Lemma rsplit_dot_complete base ext :
  dotless ext = true → rsplit_dot (base +:+ "." +:+ ext) = Some (base, ext).
Proof.
  intros Hext. apply rsplit_dot_None in Hext.
  induction base as [|c base IH].
  - change (rsplit_dot (String dot_char ext) = Some (EmptyString, ext)).
    cbn [rsplit_dot]. rewrite Hext. by rewrite bool_decide_eq_true_2.
  - change (rsplit_dot (String c (base +:+ "." +:+ ext))
            = Some (String c base, ext)).
    cbn [rsplit_dot]. by rewrite IH.
Qed.

Lemma lower_char_dot c : lower_char c = dot_char ↔ c = dot_char.
Proof.
  unfold lower_char, dot_char. split; [|by intros ->].
  destruct (_ && _) eqn:Hc; [|done].
  apply andb_true_iff in Hc as [H1%Nat.leb_le H2%Nat.leb_le].
  intros Heq. apply (f_equal nat_of_ascii) in Heq.
  rewrite nat_ascii_embedding in Heq.
  - change (nat_of_ascii (ascii_of_nat 46)) with 46 in Heq. lia.
  - apply (Nat.le_lt_trans _ 122); [lia | by apply Nat.ltb_lt].
Qed.

Lemma dotless_lower s : dotless (lower s) = dotless s.
Proof.
  induction s as [|c s IH]; simpl; [done|]. rewrite IH. f_equal. f_equal.
  apply bool_decide_ext, lower_char_dot.
Qed.


(** ** The rewriting and the removal together *)

(** X13: with [-R], once the graph file has been written, a run on
    migrations one of which depends on a replaced one, no key of
    [replaced_nodes] holding a special character of the regular
    expressions, ends with an exception raised by the rewriting: [-D] or
    not, no file is removed, the files on disk are those that were there
    when the graph file had been written. *)
Theorem failed_rewrite_blocks_removal
    (sre : string → string → string → string + exn)
    (decode encode : string → option string) (create : string → option exn)
    (dot : (string → string → string) + exn) (fuel : nat)
    (app_names : list string) (listing : Listing) (options : Options)
    (disk disk' : gmap string string) (graphviz_filename : string)
    (g : Graph) (k : RecordId) (mig : Migration) (dep : entry) :
  build_graph fuel app_names (negb (include_squashed options))
    (read_migrations app_names listing) = Some g →
  graphviz options = Some graphviz_filename →
  write_graph encode create dot graphviz_filename
    (graph_text (negb (include_squashed options))
       (read_migrations app_names listing) g) disk = (disk', None) →
  replace_squashed_dependencies_opt options = true →
  (∀ k', od_mem (replaced_nodes (read_migrations app_names listing)) k' = true →
         plain_id k' = true) →
  od_get (migrations (read_migrations app_names listing)) k = Some mig →
  dep ∈ dependencies mig →
  replaced_dep (replaced_nodes (read_migrations app_names listing)) dep = true →
  ∃ w e, handle (py_re_sub sre) decode encode create dot fuel app_names
           listing options disk = Some (w, Some e) ∧
         dom (files w) = dom disk'.
Proof.
  intros Hg Hf Hwrite HR Hplain Hmig Hin Hdep. unfold handle.
  rewrite Hg. simpl. rewrite Hf, Hwrite, HR.
  pose proof (read_migrations_inv app_names listing) as [_ Hkeys _ _].
  set (st := read_migrations app_names listing) in *.
  set (w0 := {| files := disk'; output := stdout g |}).
  assert (∃ p, (k, p) ∈ migration_paths st) as [p Hp].
  { assert (k ∈ (migration_paths st).*1) as Hk.
    { rewrite Hkeys. apply od_mem_keys, od_mem_true. by eexists. }
    apply list_elem_of_fmap in Hk as ([k' p] & -> & Hk). by exists p. }
  pose proof (loop_raises sre decode encode st Hplain (migration_paths st) w0
                k p mig dep Hp Hmig Hin Hdep) as [e He].
  pose proof (loop_dom sre decode encode st (migration_paths st) w0) as Hdom.
  change (when true ?step (?w, None)) with (step w).
  unfold replace_squashed_dependencies. fold w0.
  destruct (for_items_raising _ (migration_paths st) w0) as [w1 oe].
  simpl in He, Hdom. subst oe. simpl. by exists w1, e.
Qed.

Lemma failed_rewrite_blocks_removal_witness :
  ∃ w e, handle (py_re_sub no_sre) ascii_decode ascii_encode (λ _, None)
           (inr (FileNotFoundError "dot")) 10 ["app"] squash_listing
           {| include_squashed := false;
              replace_squashed_dependencies_opt := true;
              remove_squashed_dependencies_opt := true;
              graphviz := Some "graph.dot" |}
           (files squash_world)
         = Some (w, Some e) ∧
         dom (files w)
         = dom (<["graph.dot" :=
                  graph_text true (read_migrations ["app"] squash_listing)
                    (default empty_graph
                       (build_graph 10 ["app"] true
                          (read_migrations ["app"] squash_listing)))]>
                  (files squash_world)).
Proof.
  apply (failed_rewrite_blocks_removal no_sre ascii_decode ascii_encode
           (λ _, None) (inr (FileNotFoundError "dot")) 10 ["app"]
           squash_listing
           {| include_squashed := false;
              replace_squashed_dependencies_opt := true;
              remove_squashed_dependencies_opt := true;
              graphviz := Some "graph.dot" |}
           (files squash_world) _ "graph.dot"
           (default empty_graph
              (build_graph 10 ["app"] true
                 (read_migrations ["app"] squash_listing)))
           ("app", "0002")
           {| dependencies := [Tup ("app", "0001")]; replaces := [] |}
           (Tup ("app", "0001"))).
  - vm_compute. reflexivity.
  - reflexivity.
  - vm_compute. reflexivity.
  - reflexivity.
  - assert (Forall (λ k, plain_id k = true)
              (replaced_nodes (read_migrations ["app"] squash_listing)).*1)
      as Hall by compute_done.
    intros k Hk%od_mem_keys. by apply (proj1 (Forall_forall _ _) Hall k).
  - vm_compute. reflexivity.
  - left.
  - vm_compute. reflexivity.
Defined.

(** ** The identifiers of the nodes *)

Lemma string_app_assoc (s1 s2 s3 : string) :
  (s1 +:+ s2) +:+ s3 = s1 +:+ s2 +:+ s3.
Proof.
  induction s1 as [|c s1 IH]; [done|].
  change (String c ((s1 +:+ s2) +:+ s3) = String c (s1 +:+ s2 +:+ s3)).
  by rewrite IH.
Qed.

Lemma string_app_length (s1 s2 : string) :
  String.length (s1 +:+ s2) = String.length s1 + String.length s2.
Proof.
  induction s1 as [|c s1 IH]; [done|].
  change (S (String.length (s1 +:+ s2))
          = S (String.length s1 + String.length s2)).
  by rewrite IH.
Qed.

(** X14: the identifier that the GraphViz file gives to a node does not
    tell the application from the name: two different migrations whose
    application and name, joined by an underscore, read the same have the
    same identifier, and an edge to one is written as an edge to the
    other. *)
Theorem key_collision (a b c : string) (src : RecordId) :
  (a +:+ "_" +:+ b, c) ≠ (a, b +:+ "_" +:+ c) ∧
  key (a +:+ "_" +:+ b, c) = key (a, b +:+ "_" +:+ c) ∧
  line_text (Edge src (a +:+ "_" +:+ b, c))
  = line_text (Edge src (a, b +:+ "_" +:+ c)).
Proof.
  assert (key (a +:+ "_" +:+ b, c) = key (a, b +:+ "_" +:+ c)) as Hkey.
  { unfold key. cbn [fst snd]. by rewrite !string_app_assoc. }
  split_and!; [|done|].
  - intros [= Ha _]. apply (f_equal String.length) in Ha.
    rewrite string_app_length in Ha.
    change (String.length ("_" +:+ b)) with (S (String.length b)) in Ha. lia.
  - simpl. by rewrite Hkey.
Qed.
